(** * A shallow embedding of the pen-plotter driver [draw.py]

    The development follows the source file top-down: the settings, the
    [Scaler] class, the [MockSerialPort] class, [send], [plot_drawing],
    [stream_and_plot], [reset_plotter] and [main].

    Modelling conventions.
    - Python numbers are exact rationals ([Q]); the rounding of binary
      floating point is not modelled.  Division raises [ZeroDivisionError]
      on a zero divisor, as [/] does in Python for ints and floats alike.
    - [math.sqrt] is a function of the Python library, taken as a parameter.
    - [random.uniform a b] is [a + (b - a) * random()]; the successive
      values of [random()] are a stream carried by the world.
    - Text read from the transport is ASCII text, already decoded.
    - The g-code lines handed to [send] are kept as structured values; the
      decimal formatting done by the f-strings is not modelled.
    - The world records every [write] on the transport, everything printed,
      every [time.sleep], the lines the transport will deliver, and the
      random source.  A Python exception is an outcome of its own, and the
      only unbounded loop of the program ([while True] in [send]) is run
      with fuel. *)

From Stdlib Require Import List String Ascii Bool Arith ZArith QArith Qabs Lia Lqa.
Import ListNotations.

Local Open Scope string_scope.
Local Open Scope list_scope.

(** ** Text operations used on the transport's replies *)
Module Text.

(** [str.lower] on ASCII text. *)
Definition lower_ascii (c : ascii) : ascii :=
  let n := nat_of_ascii c in
  if ((65 <=? n) && (n <=? 90))%nat then ascii_of_nat (n + 32) else c.

Fixpoint lower (s : string) : string :=
  match s with
  | EmptyString => EmptyString
  | String c t => String (lower_ascii c) (lower t)
  end.

(** The ASCII characters [str.strip] removes: tab, line feed, vertical tab,
    form feed, carriage return, the four separators 28..31, and space. *)
Definition is_space (c : ascii) : bool :=
  let n := nat_of_ascii c in
  (((9 <=? n) && (n <=? 13)) || ((28 <=? n) && (n <=? 32)))%nat.

Fixpoint lstrip (s : string) : string :=
  match s with
  | EmptyString => EmptyString
  | String c t => if is_space c then lstrip t else s
  end.

Definition is_empty (s : string) : bool :=
  match s with EmptyString => true | _ => false end.

Fixpoint rstrip (s : string) : string :=
  match s with
  | EmptyString => EmptyString
  | String c t =>
      let t' := rstrip t in
      if is_space c && is_empty t' then EmptyString else String c t'
  end.

Definition strip (s : string) : string := rstrip (lstrip s).

(** [needle in hay] for Python strings. *)
Fixpoint contains (needle hay : string) : bool :=
  String.prefix needle hay ||
  match hay with
  | EmptyString => false
  | String _ t => contains needle t
  end.

Definition has_ok (line : string) : bool := contains "ok" (lower line).

Definition has_fault (line : string) : bool :=
  contains "error" (lower line) || contains "alarm" (lower line).

(** A line on which the acknowledgment wait of [send] stops. *)
Definition has_token (line : string) : bool := has_ok line || has_fault line.

End Text.

(** ** Settings *)

Definition SPEED_MULTIPLIER : Q := 20.
Definition SCALE : Q := 1 # 2.
Definition BASE_MARGIN : Q := 10.
Definition X_MAX : Z := 600.
Definition Y_MAX : Z := 600.
Definition BOUNDS : Q := 250.
Definition PEN_UP : Z := 0.
Definition PEN_DOWN : Z := -8.

(** ** Commands, transport objects and the world *)

(** The command texts built in the source:
    [G1_Z z f] is [f"G1 Z{z} F{f}"], [G0_XY x y f] is
    [f"G0 X{x:.3f} Y{y:.3f} F{f}"], [G1_XY x y f] is
    [f"G1 X{x:.3f} Y{y:.3f} F{f}"], and [Fixed t] a literal text. *)
Inductive gcode : Type :=
| G1_Z (z f : Z)
| G0_XY (x y : Q) (f : Z)
| G1_XY (x y : Q) (f : Q)
| Fixed (text : string).

(** What [write] receives: a command followed by a newline, or raw bytes. *)
Inductive payload : Type :=
| Line (cmd : gcode)
| Bytes (data : string).

(** The values [send] can receive as [s]: an open [serial.Serial], an
    instance of [MockSerialPort], or the class object [MockSerialPort]
    itself, which is what the source compares [s] with. *)
Inductive transport : Type :=
| SerialObj
| MockObj
| MockSerialPortClass.

Inductive printed : Type :=
| PrCommand (cmd : gcode)            (* print(">>", cmd) *)
| PrReply (line : string)            (* print(f"[{line}]") *)
| PrMachineError (line : string)     (* print(f"!!! MACHINE ERROR: {line}") *)
| PrSerialSend (data : payload)      (* print(f"[SERIAL SEND] ...") *)
| PrDrained (line : string)          (* print(s.readline().decode().strip()) *)
| PrStarting (n : Z) (word : string) (* print(f"\n--- Starting Drawing ...") *)
| PrText (text : string).

Inductive exn : Type :=
| AttributeError
| TypeError
| ZeroDivisionError
| ValueError
| IndexError
| SystemExit.

Record world : Type := mkWorld {
  written : list payload;   (* the arguments of every write, in order *)
  log : list printed;       (* standard output *)
  sleeps : list Q;          (* the arguments of every time.sleep *)
  inbox : nat -> string;    (* the lines readline returns, empty on a timeout *)
  cursor : nat;             (* how many of them were read *)
  pending : nat;            (* lines already buffered: in_waiting is nonzero *)
  rand : nat -> Q;          (* the values of random.random() *)
  rand_pos : nat
}.

Inductive outcome (A : Type) : Type :=
| Done (a : A) (w : world)
| Raised (e : exn) (w : world)
| OutOfFuel (w : world).

Arguments Done {A} a w.
Arguments Raised {A} e w.
Arguments OutOfFuel {A} w.

Definition world_of {A} (o : outcome A) : world :=
  match o with
  | Done _ w => w
  | Raised _ w => w
  | OutOfFuel w => w
  end.

Definition M (A : Type) : Type := world -> outcome A.

Definition ret {A} (a : A) : M A := fun w => Done a w.

Definition bind {A B} (m : M A) (k : A -> M B) : M B :=
  fun w =>
    match m w with
    | Done a w' => k a w'
    | Raised e w' => Raised e w'
    | OutOfFuel w' => OutOfFuel w'
    end.

Definition raise {A} (e : exn) : M A := fun w => Raised e w.

Declare Scope py_scope.
Delimit Scope py_scope with py.
Notation "x <- m ;; k" := (bind m (fun x => k))
  (at level 61, m at next level, right associativity) : py_scope.
Notation "m ;; k" := (bind m (fun _ => k))
  (at level 61, right associativity) : py_scope.
Local Open Scope py_scope.

Definition print (p : printed) : M unit :=
  fun w => Done tt (mkWorld (written w) (log w ++ [p]) (sleeps w) (inbox w)
                            (cursor w) (pending w) (rand w) (rand_pos w)).

Definition sleep (seconds : Q) : M unit :=
  fun w => Done tt (mkWorld (written w) (log w) (sleeps w ++ [seconds]) (inbox w)
                            (cursor w) (pending w) (rand w) (rand_pos w)).

Definition random : M Q :=
  fun w => Done (rand w (rand_pos w))
                (mkWorld (written w) (log w) (sleeps w) (inbox w)
                         (cursor w) (pending w) (rand w) (S (rand_pos w))).

Definition uniform (a b : Q) : M Q :=
  u <- random ;; ret (a + (b - a) * u)%Q.

(** ** The transport's methods

    [serial.Serial] has them all.  [MockSerialPort] defines [write],
    [in_waiting] and [close] only, so [readline] on an instance raises
    [AttributeError]; on the class object [write] lacks its argument. *)

Definition put (data : payload) : M unit :=
  fun w => Done tt (mkWorld (written w ++ [data]) (log w) (sleeps w) (inbox w)
                            (cursor w) (pending w) (rand w) (rand_pos w)).

Definition write (s : transport) (data : payload) : M unit :=
  match s with
  | SerialObj => put data
  | MockObj => put data ;; print (PrSerialSend data)
  | MockSerialPortClass => raise TypeError
  end.

Definition readline (s : transport) : M string :=
  match s with
  | SerialObj =>
      fun w => Done (inbox w (cursor w))
                    (mkWorld (written w) (log w) (sleeps w) (inbox w)
                             (S (cursor w)) (Nat.pred (pending w)) (rand w) (rand_pos w))
  | MockObj => raise AttributeError
  | MockSerialPortClass => raise AttributeError
  end.

(** The truth value of [s.in_waiting]: the class attribute is a property
    object, which is true. *)
Definition in_waiting (s : transport) (w : world) : bool :=
  match s with
  | SerialObj => negb (pending w =? 0)%nat
  | MockObj => false
  | MockSerialPortClass => true
  end.

(** ** [send] *)

(** [s is not MockSerialPort]: identity with the class object. *)
Definition is_not_MockSerialPort (s : transport) : bool :=
  match s with
  | MockSerialPortClass => false
  | _ => true
  end.

(** The [while True] loop waiting for the plotter's reply. *)
Fixpoint wait_reply (fuel : nat) (s : transport) : M unit :=
  match fuel with
  | O => fun w => OutOfFuel w
  | S fuel' =>
      raw <- readline s ;;
      let line := Text.strip raw in
      (if Text.is_empty line then ret tt else print (PrReply line)) ;;
      if Text.has_ok line then ret tt
      else if Text.has_fault line then print (PrMachineError line)
      else wait_reply fuel' s
  end.

(** The loop [while s.in_waiting: print(...)]: every [readline] takes one
    buffered line, so the loop runs once per buffered line. *)
Fixpoint drain (n : nat) (s : transport) : M unit :=
  match n with
  | O => ret tt
  | S n' =>
      fun w =>
        if in_waiting s w
        then (raw <- readline s ;; print (PrDrained (Text.strip raw)) ;; drain n' s) w
        else Done tt w
  end.

Definition send (fuel : nat) (s : transport) (cmd : gcode) : M unit :=
  print (PrCommand cmd) ;;
  write s (Line cmd) ;;
  if is_not_MockSerialPort s
  then wait_reply fuel s
  else sleep (1 # 20) ;; fun w => drain (S (pending w)) s w.

(** ** Arithmetic helpers *)

Definition Qlt_bool (a b : Q) : bool := negb (Qle_bool b a).

(** [max(a, b)] and [min(a, b)]: the first argument is kept on a tie. *)
Definition py_max (a b : Q) : Q := if Qlt_bool a b then b else a.
Definition py_min (a b : Q) : Q := if Qlt_bool b a then b else a.

(** [a / b]. *)
Definition divide (a b : Q) : M Q :=
  if Qeq_bool b 0 then raise ZeroDivisionError else ret (a / b)%Q.

(** [min(l)] and [max(l)] of a sequence: [ValueError] when it is empty. *)
Definition seq_min (l : list Q) : M Q :=
  match l with
  | [] => raise ValueError
  | a :: t => ret (fold_left py_min t a)
  end.

Definition seq_max (l : list Q) : M Q :=
  match l with
  | [] => raise ValueError
  | a :: t => ret (fold_left py_max t a)
  end.

(** [l[i]] for a non-negative index. *)
Definition item (l : list Q) (i : nat) : M Q :=
  match nth_error l i with
  | Some v => ret v
  | None => raise IndexError
  end.

Fixpoint for_each {A} (l : list A) (body : A -> M unit) : M unit :=
  match l with
  | [] => ret tt
  | a :: t => body a ;; for_each t body
  end.

(** ** [class Scaler] *)

Record Scaler : Type := mkScaler {
  smaller_scale : Q;
  offset_x : Q;
  offset_y : Q;
  min_x : Q;
  min_y : Q;
  multiplier : Q
}.

Definition Scaler_init (min_x max_x min_y max_y bounds : Q) : M Scaler :=
  let x_range := (max_x - min_x)%Q in
  let y_range := (max_y - min_y)%Q in
  master_scale <- divide bounds (py_max x_range y_range) ;;
  smaller <- uniform (1 # 4) (3 # 4) ;;
  let final_w := (x_range * master_scale * smaller)%Q in
  let final_h := (y_range * master_scale * smaller)%Q in
  let max_offset_x := (bounds - final_w)%Q in
  let max_offset_y := (bounds - final_h)%Q in
  off_x <- uniform 0 max_offset_x ;;
  off_y <- uniform 0 max_offset_y ;;
  ret (mkScaler smaller off_x off_y min_x min_y (master_scale * smaller)%Q).

Definition scale (sc : Scaler) (x y : Q) : Q * Q :=
  (((x - min_x sc) * multiplier sc + offset_x sc + 5)%Q,
   (- ((y - min_y sc) * multiplier sc + offset_y sc + 5))%Q).

(** ** Drawings *)

(** A stroke is [[xs, ys, timestamps]]. *)
Record stroke : Type := mkStroke {
  x_coords : list Q;
  y_coords : list Q;
  timestamps : list Q
}.

Record drawing_data : Type := mkDrawing {
  word : string;
  drawing : list stroke
}.

(** The four running extremes of [plot_drawing]; [None] stands for the
    initial [math.inf] and [-math.inf], which any sample replaces. *)
Definition box : Type := (Q * Q * Q * Q)%type.

Fixpoint bounding_box (strokes : list stroke) (acc : option box) : M (option box) :=
  match strokes with
  | [] => ret acc
  | st :: rest =>
      lo_x <- seq_min (x_coords st) ;;
      hi_x <- seq_max (x_coords st) ;;
      lo_y <- seq_min (y_coords st) ;;
      hi_y <- seq_max (y_coords st) ;;
      bounding_box rest
        (Some match acc with
              | None => (lo_x, hi_x, lo_y, hi_y)
              | Some (a, b, c, d) =>
                  (py_min a lo_x, py_max b hi_x, py_min c lo_y, py_max d hi_y)
              end)
  end.

(** What the response of [requests.get] turns out to be, and the lines
    [iter_lines] yields: a line is empty or holds one record. *)
Inductive response : Type :=
| ResponseOk (lines : list (option drawing_data))
| ResponseTimeout
| ResponseError.

Section Plotter.

(** [math.sqrt] *)
Variable sqrt : Q -> Q.

(** ** [plot_drawing] *)

(** [math.sqrt(((x - x_prior) ** 2) + ((y - y_prior) ** 2))] for two scaled
    points. *)
Definition distance (p p_prior : Q * Q) : Q :=
  sqrt ((fst p - fst p_prior) ^ 2 + (snd p - snd p_prior) ^ 2)%Q.

(** The body of [for i in range(1, len(x_coords))]. *)
Definition segment (fuel : nat) (s : transport) (scaler : Scaler) (st : stroke)
    (i : nat) : M unit :=
  t_i <- item (timestamps st) i ;;
  t_prior <- item (timestamps st) (i - 1) ;;
  let delta_ms := (t_i - t_prior)%Q in
  let delay_seconds := (delta_ms / 1000)%Q in
  if Qle_bool delay_seconds 0 then ret tt
  else
    x_i <- item (x_coords st) i ;;
    y_i <- item (y_coords st) i ;;
    let p := scale scaler x_i y_i in
    x_p <- item (x_coords st) (i - 1) ;;
    y_p <- item (y_coords st) (i - 1) ;;
    let p_prior := scale scaler x_p y_p in
    let velocity := (distance p p_prior / delay_seconds)%Q in
    if Qle_bool velocity 0 then ret tt
    else
      let clamped_velocity := py_min (velocity * SPEED_MULTIPLIER)%Q 11500 in
      send fuel s (G1_XY (fst p) (snd p) clamped_velocity).

(** The body of [for stroke in strokes]. *)
Definition plot_stroke (fuel : nat) (s : transport) (scaler : Scaler)
    (st : stroke) : M unit :=
  send fuel s (G1_Z PEN_UP 7000) ;;
  x_0 <- item (x_coords st) 0 ;;
  y_0 <- item (y_coords st) 0 ;;
  let (start_x, start_y) := scale scaler x_0 y_0 in
  send fuel s (G0_XY start_x start_y 11500) ;;
  send fuel s (G1_Z PEN_DOWN 7000) ;;
  for_each (seq 1 (List.length (x_coords st) - 1)) (segment fuel s scaler st).

(** With no stroke the extremes stay infinite: [Scaler] then divides by an
    infinity, which raises nothing, takes its three random values, and is
    never used. *)
Definition plot_drawing (fuel : nat) (s : transport) (d : drawing_data) : M unit :=
  let strokes := drawing d in
  extremes <- bounding_box strokes None ;;
  match extremes with
  | None => random ;; random ;; random ;; ret tt
  | Some (lo_x, hi_x, lo_y, hi_y) =>
      scaler <- Scaler_init lo_x hi_x lo_y hi_y BOUNDS ;;
      for_each strokes (plot_stroke fuel s scaler)
  end ;;
  send fuel s (G1_Z PEN_UP 7000).

(** ** [stream_and_plot] *)

(** The loop [for line in response.iter_lines()], with [count]. *)
Fixpoint plot_lines (fuel : nat) (s : transport) (lines : list (option drawing_data))
    (limit count : Z) : M unit :=
  match lines with
  | [] => ret tt
  | line :: rest =>
      match line, (count <? limit)%Z with
      | Some d, true =>
          print (PrStarting (count + 1) (word d)) ;;
          plot_drawing fuel s d ;;
          plot_lines fuel s rest limit (count + 1)
      | _, _ =>
          if (count >=? limit)%Z then ret tt
          else plot_lines fuel s rest limit count
      end
  end.

Definition stream_and_plot (fuel : nat) (s : transport) (r : response)
    (limit : Z) : M unit :=
  match r with
  | ResponseOk lines => plot_lines fuel s lines limit 0
  | ResponseTimeout => raise SystemExit
  | ResponseError => raise SystemExit
  end.

(** ** [reset_plotter] and [main] *)

Definition reset_input_buffer : M unit :=
  fun w => Done tt (mkWorld (written w) (log w) (sleeps w) (inbox w)
                            (cursor w + pending w) 0 (rand w) (rand_pos w)).

Definition reset_plotter (s : transport) : M unit :=
  print (PrText "Sending reset and unlock...") ;;
  write s (Bytes (String (ascii_of_nat 24) EmptyString)) ;;
  sleep 2 ;;
  write s (Bytes (String "$" (String "X" (String (ascii_of_nat 10) EmptyString)))) ;;
  sleep 1 ;;
  reset_input_buffer ;;
  print (PrText "Plotter unlocked.").

Definition close (s : transport) : M unit :=
  match s with
  | MockObj => print (PrText "[SERIAL] Connection closed.")
  | _ => ret tt
  end.

(** [serial_opens] tells whether [serial.Serial(PORT, BAUD, timeout=1)]
    succeeds; [r] is what the dataset server answers. *)
Definition main (fuel : nat) (serial_opens : bool) (r : response) : M unit :=
  s <- (if serial_opens
        then sleep 2 ;; reset_plotter SerialObj ;; ret SerialObj
        else print (PrText "Failed to open serial port:") ;; ret MockObj) ;;
  send fuel s (Fixed "G21") ;;
  send fuel s (Fixed "G90") ;;
  send fuel s (Fixed "$32=0") ;;
  send fuel s (Fixed "$20=0") ;;
  send fuel s (Fixed "$130=600") ;;
  send fuel s (Fixed "$131=600") ;;
  send fuel s (Fixed "G10 L20 P1 X0 Y0 Z0") ;;
  stream_and_plot fuel s r 1 ;;
  send fuel s (G1_Z PEN_UP 7000) ;;
  send fuel s (Fixed "G0 X0 Y0") ;;
  close s.

End Plotter.

(** ** [get_ndjson] *)

Definition DATASET_URL : string :=
  "https://storage.googleapis.com/quickdraw_dataset/full/raw/".

Definition get_ndjson (filename : string) : string :=
  ((DATASET_URL ++ filename) ++ ".ndjson")%string.

(** ** Definitions used to state the properties *)

(** The records among the lines of a response, in arrival order. *)
Definition records (lines : list (option drawing_data)) : list drawing_data :=
  flat_map (fun line => match line with Some d => [d] | None => [] end) lines.

(** Processing drawings one after the other, numbered from [count + 1]:
    the announcement of the drawing, then [plot_drawing]. *)
Fixpoint plot_in_order (sqrt : Q -> Q) (fuel : nat) (s : transport)
    (ds : list drawing_data) (count : Z) : M unit :=
  match ds with
  | [] => ret tt
  | d :: rest =>
      print (PrStarting (count + 1) (word d)) ;;
      plot_drawing sqrt fuel s d ;;
      plot_in_order sqrt fuel s rest (count + 1)
  end.

(** The line the next [readline] returns, stripped. *)
Definition reply_at (w : world) (k : nat) : string :=
  Text.strip (inbox w (cursor w + k)).

(** What [send] does before it waits. *)
Definition announced (cmd : gcode) (w : world) : world :=
  mkWorld (written w ++ [Line cmd]) (log w ++ [PrCommand cmd]) (sleeps w)
          (inbox w) (cursor w) (pending w) (rand w) (rand_pos w).

(** A transport that answers every command within [fuel] reads, whatever
    was read before. *)
Definition prompt (fuel : nat) (w : world) : Prop :=
  forall n, (cursor w <= n)%nat ->
    exists k, (k < fuel)%nat /\ Text.has_token (Text.strip (inbox w (n + k))) = true.

(** The velocity [plot_drawing] computes for the segment that ends at sample
    [(x_i, y_i)] with timestamp [t_i]: the distance between the two scaled
    points over the delay in seconds. *)
Definition segment_velocity (sqrt : Q -> Q) (scaler : Scaler)
    (x_i y_i t_i x_p y_p t_prior : Q) : Q :=
  (distance sqrt (scale scaler x_i y_i) (scale scaler x_p y_p)
   / ((t_i - t_prior) / 1000))%Q.

(** A feed move asks for no more than the device's maximum feed rate. *)
Definition feed_within_max (data : payload) : Prop :=
  match data with
  | Line (G1_XY _ _ f) => (f <= 11500)%Q
  | _ => True
  end.

(** Every write of [m] satisfies [P]. *)
Definition emits {A} (P : payload -> Prop) (m : M A) : Prop :=
  forall w, exists new,
    written (world_of (m w)) = written w ++ new /\ Forall P new.

(** A rational value of the square root, to six decimals, to run examples. *)
Definition sqrt_approx (q : Q) : Q :=
  Z.sqrt (Qnum q * Zpos (Qden q) * 10 ^ 12) # (Qden q * 10 ^ 6).

Definition fresh (replies : nat -> string) : world :=
  mkWorld [] [] [] replies 0 0 (fun _ => 1 # 2) 0.

(** A plotter that acknowledges everything. *)
Definition obedient : world := fresh (fun _ => "ok").

(** A plotter that never says anything [send] waits for: reads time out
    or bring a status report. *)
Definition unresponsive : world :=
  fresh (fun n => if Nat.even n then "" else "<Idle|MPos:0.000,0.000,0.000>").


Definition two_points : drawing_data :=
  mkDrawing "line" [mkStroke [0; 10] [0; 10] [0; 100]].

Definition single_point : drawing_data :=
  mkDrawing "dot" [mkStroke [5] [7] [0]].

(** A stroke as the dataset promises it: three sequences of one length,
    with one sample at least. *)
Definition well_formed (st : stroke) : Prop :=
  (1 <= List.length (x_coords st))%nat /\
  List.length (y_coords st) = List.length (x_coords st) /\
  List.length (timestamps st) = List.length (x_coords st).

(** The x samples and the y samples of all the strokes. *)
Definition all_x (strokes : list stroke) : list Q := flat_map x_coords strokes.
Definition all_y (strokes : list stroke) : list Q := flat_map y_coords strokes.

(** [lo] and [hi] are the least and the greatest of the samples [l]. *)
Definition range_of (lo hi : Q) (l : list Q) : Prop :=
  Forall (fun v => (lo <= v <= hi)%Q) l /\ In lo l /\ In hi l.

(** The four extremes are those of the samples [xs] and [ys]. *)
Definition extremes_of (b : box) (xs ys : list Q) : Prop :=
  let '(lo_x, hi_x, lo_y, hi_y) := b in
  range_of lo_x hi_x xs /\ range_of lo_y hi_y ys.

(** A stroke on which [min] and [max] do not fail. *)
Definition has_samples (st : stroke) : Prop :=
  x_coords st <> [] /\ y_coords st <> [].

Definition is_feed_move (data : payload) : Prop :=
  match data with
  | Line (G1_XY _ _ _) => True
  | _ => False
  end.

(** What a stroke puts on the wire: pen up, the rapid move to its first
    sample scaled, pen down, and then feed moves only, one per further
    sample at most. *)
Definition stroke_block (scaler : Scaler) (st : stroke) (blk : list payload) : Prop :=
  exists x_0 y_0 feeds,
    nth_error (x_coords st) 0 = Some x_0 /\
    nth_error (y_coords st) 0 = Some y_0 /\
    blk = [Line (G1_Z PEN_UP 7000);
           Line (G0_XY (fst (scale scaler x_0 y_0)) (snd (scale scaler x_0 y_0)) 11500);
           Line (G1_Z PEN_DOWN 7000)] ++ feeds /\
    Forall is_feed_move feeds /\
    (List.length feeds <= List.length (x_coords st) - 1)%nat.

(** Two samples of the list differ. *)
Definition spread (l : list Q) : Prop :=
  exists a b, In a l /\ In b l /\ (a < b)%Q.

(** The only things [plot_drawing] may write: pen moves to one of the two
    heights at feed 7000, rapid moves at 11500, and feed moves with a
    positive rate up to 11500. *)
Definition motion_command (data : payload) : Prop :=
  match data with
  | Line (G1_Z z f) => (z = PEN_UP \/ z = PEN_DOWN) /\ f = 7000%Z
  | Line (G0_XY _ _ f) => f = 11500%Z
  | Line (G1_XY _ _ f) => (0 < f <= 11500)%Q
  | Line (Fixed _) => False
  | Bytes _ => False
  end.

(** The lines [main] sends before it asks for the drawings. *)
Definition setup_lines : list payload :=
  [Line (Fixed "G21"); Line (Fixed "G90"); Line (Fixed "$32=0");
   Line (Fixed "$20=0"); Line (Fixed "$130=600"); Line (Fixed "$131=600");
   Line (Fixed "G10 L20 P1 X0 Y0 Z0")].

(** The two writes of [reset_plotter]: Ctrl-X, then the unlock command. *)
Definition reset_bytes : list payload :=
  [Bytes (String (ascii_of_nat 24) EmptyString);
   Bytes (String "$" (String "X" (String (ascii_of_nat 10) EmptyString)))].

(** From [w] to [w1] the payloads [new] were written and the pauses
    [naps] taken; the lines of the transport are the same and none that was
    read is given back. *)
Definition moved (w w1 : world) (new : list payload) (naps : list Q) : Prop :=
  written w1 = written w ++ new /\ sleeps w1 = sleeps w ++ naps /\
  inbox w1 = inbox w /\ (cursor w <= cursor w1)%nat.

(** A reply that reports a fault and is no acknowledgment. *)
Definition fault_only (line : string) : Prop :=
  Text.has_fault line = true /\ Text.has_ok line = false.

(** Anything printed but the announcement of a drawing. *)
Definition no_announcement (p : printed) : Prop :=
  match p with
  | PrStarting _ _ => False
  | _ => True
  end.

(** The drawings a log announces, with their numbers, in order. *)
Definition starts (l : list printed) : list (Z * string) :=
  flat_map (fun p => match p with
                     | PrStarting n name => [(n, name)]
                     | _ => []
                     end) l.

(** The announcements of the drawings [ds] when [count] came before. *)
Fixpoint numbered (count : Z) (ds : list drawing_data) : list (Z * string) :=
  match ds with
  | [] => []
  | d :: rest => ((count + 1)%Z, word d) :: numbered (count + 1) rest
  end.

(** A drawing [plot_drawing] can go through: no stroke at all, or
    well-formed strokes with two different x samples or y samples. *)
Definition plottable (d : drawing_data) : Prop :=
  drawing d = [] \/
  (Forall well_formed (drawing d) /\
   (spread (all_x (drawing d)) \/ spread (all_y (drawing d)))).

(** What a drawing puts on the wire: with one scaler, the blocks of its
    strokes in order, then pen up. *)
Definition drawing_output (d : drawing_data) (out : list payload) : Prop :=
  exists scaler blocks,
    out = List.concat blocks ++ [Line (G1_Z PEN_UP 7000)] /\
    Forall2 (stroke_block scaler) (drawing d) blocks.

(** What [m] does to the transport's lines and to the log: the lines are
    kept, none read is given back, the log only grows, by entries that
    satisfy [P], and every fault-only line that [m] reads is in the log as a
    machine error. *)
Definition logs {A} (P : printed -> Prop) (m : M A) : Prop :=
  forall w,
    inbox (world_of (m w)) = inbox w /\
    (cursor w <= cursor (world_of (m w)))%nat /\
    (exists new, log (world_of (m w)) = log w ++ new /\ Forall P new) /\
    (forall n, (cursor w <= n < cursor (world_of (m w)))%nat ->
       fault_only (Text.strip (inbox w n)) ->
       In (PrMachineError (Text.strip (inbox w n))) (log (world_of (m w)))).

(** * Properties *)

(** ** Text *)

Lemma has_ok_nonempty line :
  Text.has_ok line = true -> Text.is_empty line = false.
Proof. destruct line; [discriminate | reflexivity]. Qed.

Lemma has_fault_nonempty line :
  Text.has_fault line = true -> Text.is_empty line = false.
Proof. destruct line; [discriminate | reflexivity]. Qed.

Lemma has_token_nonempty line :
  Text.has_token line = true -> Text.is_empty line = false.
Proof.
  unfold Text.has_token. intros H. apply orb_true_iff in H.
  destruct H; auto using has_ok_nonempty, has_fault_nonempty.
Qed.

(** ** The acknowledgment wait *)

(** One turn of the loop on a line without token: the line is printed when
    it is not empty, and the loop goes on. *)
Lemma wait_reply_skip fuel w :
  Text.has_token (reply_at w 0) = false ->
  exists w1,
    wait_reply (S fuel) SerialObj w = wait_reply fuel SerialObj w1 /\
    written w1 = written w /\ inbox w1 = inbox w /\
    cursor w1 = S (cursor w) /\ sleeps w1 = sleeps w.
Proof.
  unfold reply_at, Text.has_token. rewrite Nat.add_0_r. intros H.
  apply orb_false_iff in H. destruct H as [Hok Hfault].
  cbn [wait_reply]. unfold bind at 1. cbn [readline].
  destruct (Text.is_empty (Text.strip (inbox w (cursor w)))) eqn:E.
  - eexists. split.
    + unfold bind, ret. rewrite Hok, Hfault. reflexivity.
    + cbn. auto.
  - eexists. split.
    + unfold bind, print. rewrite Hok, Hfault. reflexivity.
    + cbn. auto.
Qed.

(** One turn of the loop on a line with a token: the loop ends. *)
Lemma wait_reply_stop fuel w :
  Text.has_token (reply_at w 0) = true ->
  exists w1,
    wait_reply (S fuel) SerialObj w = Done tt w1 /\
    written w1 = written w /\ inbox w1 = inbox w /\
    cursor w1 = S (cursor w) /\ sleeps w1 = sleeps w /\
    log w1 = log w ++ PrReply (reply_at w 0) ::
               (if Text.has_ok (reply_at w 0) then []
                else [PrMachineError (reply_at w 0)]).
Proof.
  intros H. pose proof (has_token_nonempty _ H) as Hne.
  unfold Text.has_token in H. unfold reply_at in *. rewrite Nat.add_0_r in *.
  cbn [wait_reply]. unfold bind at 1. cbn [readline].
  unfold bind at 1. rewrite Hne. unfold print at 1.
  destruct (Text.has_ok (Text.strip (inbox w (cursor w)))) eqn:Hok.
  - eexists. split; [reflexivity | cbn; auto 6].
  - cbn in H. rewrite H. eexists. split; [reflexivity |].
    cbn. rewrite <- app_assoc. auto 6.
Qed.

(** The wait ends once a line with a token is within reach of the fuel. *)
Lemma wait_reply_done k : forall fuel w,
  (k < fuel)%nat ->
  Text.has_token (reply_at w k) = true ->
  exists w1,
    wait_reply fuel SerialObj w = Done tt w1 /\
    written w1 = written w /\ inbox w1 = inbox w /\
    (cursor w < cursor w1)%nat /\ sleeps w1 = sleeps w.
Proof.
  induction k as [|k IH]; intros fuel w Hlt Htok;
    (destruct fuel as [|fuel]; [lia |]).
  - destruct (wait_reply_stop fuel w Htok) as (w1 & E & ? & ? & Hc & ? & _).
    exists w1. rewrite Hc. auto 6.
  - destruct (Text.has_token (reply_at w 0)) eqn:E0.
    + destruct (wait_reply_stop fuel w E0) as (w1 & E & ? & ? & Hc & ? & _).
      exists w1. rewrite Hc. auto 6.
    + destruct (wait_reply_skip fuel w E0) as (w1 & E & Hw & Hi & Hc & Hs).
      destruct (IH fuel w1) as (w2 & E2 & ? & ? & ? & ?); [lia | |].
      * unfold reply_at in *. rewrite Hi, Hc.
        replace (S (cursor w) + k)%nat with (cursor w + S k)%nat by lia.
        exact Htok.
      * exists w2. rewrite E, E2. repeat split; try congruence; lia.
Qed.

(** Without a token among the next [fuel] lines the wait is still going. *)
Lemma wait_reply_starved fuel : forall w,
  (forall k, (k < fuel)%nat -> Text.has_token (reply_at w k) = false) ->
  exists w1, wait_reply fuel SerialObj w = OutOfFuel w1.
Proof.
  induction fuel as [|fuel IH]; intros w H.
  - exists w. reflexivity.
  - destruct (wait_reply_skip fuel w) as (w1 & E & _ & Hi & Hc & _).
    + apply H. lia.
    + destruct (IH w1) as (w2 & E2).
      * intros k Hk. unfold reply_at in *. rewrite Hi, Hc.
        replace (S (cursor w) + k)%nat with (cursor w + S k)%nat by lia.
        apply H. lia.
      * exists w2. congruence.
Qed.

Lemma send_serial fuel cmd w :
  send fuel SerialObj cmd w = wait_reply fuel SerialObj (announced cmd w).
Proof. reflexivity. Qed.

Lemma wait_reply_keeps_sleeps fuel : forall w,
  sleeps (world_of (wait_reply fuel SerialObj w)) = sleeps w.
Proof.
  induction fuel as [|fuel IH]; intros w; [reflexivity |].
  destruct (Text.has_token (reply_at w 0)) eqn:E.
  - destruct (wait_reply_stop fuel w E) as (w1 & -> & _ & _ & _ & Hs & _).
    exact Hs.
  - destruct (wait_reply_skip fuel w E) as (w1 & -> & _ & _ & _ & Hs).
    rewrite IH. exact Hs.
Qed.

Lemma wait_reply_keeps_written fuel : forall w,
  written (world_of (wait_reply fuel SerialObj w)) = written w.
Proof.
  induction fuel as [|fuel IH]; intros w; [reflexivity |].
  destruct (Text.has_token (reply_at w 0)) eqn:E.
  - destruct (wait_reply_stop fuel w E) as (w1 & -> & Hw & _). exact Hw.
  - destruct (wait_reply_skip fuel w E) as (w1 & -> & Hw & _).
    rewrite IH. exact Hw.
Qed.

Lemma token_search (f : nat -> bool) fuel :
  (exists k, (k < fuel)%nat /\ f k = true) \/
  (forall k, (k < fuel)%nat -> f k = false).
Proof.
  induction fuel as [|fuel [(k & Hk & E) | IH]].
  - right. intros k Hk. lia.
  - left. exists k. split; [lia | exact E].
  - destruct (f fuel) eqn:E.
    + left. exists fuel. split; [lia | exact E].
    + right. intros k Hk.
      destruct (Nat.eq_dec k fuel) as [-> | Hne]; [exact E | apply IH; lia].
Qed.

(** C10.  In the acknowledgment wait the test for "ok" comes first: on a
    reply line that contains "ok" and also "error" or "alarm", whatever the
    letter case, the loop stops as for an acknowledgment.  It prints the
    line and nothing else, so no machine error is reported, and it reads no
    further line.  This holds for any turn of the loop and so for [send]. *)
Theorem ok_takes_precedence_over_fault fuel cmd w :
  Text.has_ok (reply_at w 0) = true ->
  Text.has_fault (reply_at w 0) = true ->
  (exists w1,
     wait_reply (S fuel) SerialObj w = Done tt w1 /\
     log w1 = log w ++ [PrReply (reply_at w 0)] /\
     cursor w1 = S (cursor w)) /\
  (exists w1,
     send (S fuel) SerialObj cmd w = Done tt w1 /\
     log w1 = log w ++ [PrCommand cmd; PrReply (reply_at w 0)] /\
     cursor w1 = S (cursor w) /\
     written w1 = written w ++ [Line cmd]).
Proof.
  intros Hok Hfault. split.
  - destruct (wait_reply_stop fuel w) as (w1 & E & _ & _ & Hc & _ & Hl).
    + unfold Text.has_token. rewrite Hok. reflexivity.
    + rewrite Hok in Hl. eauto.
  - rewrite send_serial.
    destruct (wait_reply_stop fuel (announced cmd w)) as (w1 & E & Hw & _ & Hc & _ & Hl).
    + change (reply_at (announced cmd w) 0) with (reply_at w 0).
      unfold Text.has_token. rewrite Hok. reflexivity.
    + change (reply_at (announced cmd w) 0) with (reply_at w 0) in Hl.
      rewrite Hok in Hl. exists w1. repeat split; trivial.
      rewrite Hl. cbn. rewrite <- app_assoc. reflexivity.
Qed.

Lemma ok_takes_precedence_over_fault_witness :
  exists w1,
    send 1 SerialObj (Fixed "G21") (fresh (fun _ => "error: bad token")) = Done tt w1 /\
    log w1 = [PrCommand (Fixed "G21"); PrReply "error: bad token"].
Proof.
  destruct (ok_takes_precedence_over_fault 0 (Fixed "G21")
              (fresh (fun _ => "error: bad token")))
    as [_ (w1 & E & Hl & _)]; [reflexivity | reflexivity |].
  exists w1. split; [exact E | exact Hl].
Defined.

(** C4, as the code has it.  [send] over the real transport has no timeout:
    its wait ends exactly when some line still to come contains "ok",
    "error" or "alarm".  It ends on the first such line; when every read
    times out or brings a line without these words, it never ends. *)
Theorem send_ends_iff_token_arrives cmd w :
  (exists fuel w1, send fuel SerialObj cmd w = Done tt w1) <->
  (exists k, Text.has_token (reply_at w k) = true).
Proof.
  split.
  - intros (fuel & w1 & E). rewrite send_serial in E.
    destruct (token_search (fun k => Text.has_token (reply_at w k)) fuel)
      as [(k & _ & Hk) | Hnone]; [eauto |].
    destruct (wait_reply_starved fuel (announced cmd w) Hnone) as (w2 & E2).
    congruence.
  - intros (k & Hk). exists (S k).
    destruct (wait_reply_done k (S k) (announced cmd w)) as (w1 & E & _);
      [lia | exact Hk |].
    exists w1. rewrite send_serial. exact E.
Qed.

(** C4, as stated, fails: on a plotter whose reads time out or bring status
    reports only, no amount of fuel lets [send] return. *)
Lemma send_waits_forever :
  ~ (exists fuel w1, send fuel SerialObj (Fixed "G21") unresponsive = Done tt w1).
Proof.
  intros (fuel & w1 & E). rewrite send_serial in E.
  destruct (wait_reply_starved fuel (announced (Fixed "G21") unresponsive))
    as (w2 & E2).
  - intros k _. unfold reply_at. cbn [announced inbox cursor unresponsive fresh].
    destruct (Nat.even (0 + k)); reflexivity.
  - congruence.
Qed.

(** C2, on the code.  [s is not MockSerialPort] compares the instance with
    the class, so it is true of the simulated transport too: [send] goes to
    the wait of the real transport, calls [readline], which
    [MockSerialPort] lacks, and raises [AttributeError] after the write.
    The branch that pauses is reached by no transport, and [main], when the
    serial port cannot be opened, stops at its first command. *)
Theorem send_on_mock_raises :
  (forall fuel cmd w, exists w1,
      send (S fuel) MockObj cmd w = Raised AttributeError w1 /\
      written w1 = written w ++ [Line cmd]) /\
  (forall fuel s cmd w, sleeps (world_of (send fuel s cmd w)) = sleeps w) /\
  (forall sqrt fuel r w, exists w1,
      main sqrt (S fuel) false r w = Raised AttributeError w1 /\
      written w1 = written w ++ [Line (Fixed "G21")]).
Proof.
  split; [| split].
  - intros fuel cmd w. eexists. split; reflexivity.
  - intros fuel [| |] cmd w.
    + rewrite send_serial, wait_reply_keeps_sleeps. reflexivity.
    + destruct fuel; reflexivity.
    + reflexivity.
  - intros sqrt fuel r w. eexists. split; reflexivity.
Qed.


(** ** The Scaler *)

Lemma Qlt_bool_iff a b : Qlt_bool a b = true <-> (a < b)%Q.
Proof.
  unfold Qlt_bool. rewrite negb_true_iff. split.
  - intros H. apply Qnot_le_lt. intros Hle.
    apply Qle_bool_iff in Hle. congruence.
  - intros H. destruct (Qle_bool b a) eqn:E; [| reflexivity].
    apply Qle_bool_iff in E. exfalso. exact (Qlt_not_le _ _ H E).
Qed.

Lemma py_max_cases a b :
  (py_max a b = a /\ (b <= a)%Q) \/ (py_max a b = b /\ (a < b)%Q).
Proof.
  unfold py_max. destruct (Qlt_bool a b) eqn:E.
  - right. split; [reflexivity | apply Qlt_bool_iff; exact E].
  - left. split; [reflexivity |].
    apply Qnot_lt_le. intros H. apply Qlt_bool_iff in H. congruence.
Qed.

Lemma py_min_cases a b :
  (py_min a b = a /\ (a <= b)%Q) \/ (py_min a b = b /\ (b < a)%Q).
Proof.
  unfold py_min. destruct (Qlt_bool b a) eqn:E.
  - right. split; [reflexivity | apply Qlt_bool_iff; exact E].
  - left. split; [reflexivity |].
    apply Qnot_lt_le. intros H. apply Qlt_bool_iff in H. congruence.
Qed.

(** [random.uniform(a, b)] stays between its bounds when [random()] is in
    the unit interval. *)
Lemma uniform_in_range a b w :
  (a <= b)%Q -> (0 <= rand w (rand_pos w) <= 1)%Q ->
  exists v w1, uniform a b w = Done v w1 /\ (a <= v <= b)%Q.
Proof.
  intros Hab [H0 H1]. do 2 eexists. split; [reflexivity |].
  split; nra.
Qed.

(** C1, on the code.  A bounding box with no extent on either axis makes
    [Scaler] divide [bounds] by [max(0, 0)]: the construction raises
    [ZeroDivisionError] instead of taking 1 as the denominator, and
    [plot_drawing] on a drawing made of one point stops there, before any
    command is sent. *)
Theorem degenerate_box_raises_zero_division :
  (forall x y bounds w,
      Scaler_init x x y y bounds w = Raised ZeroDivisionError w) /\
  (forall sqrt fuel s name x y t w,
      plot_drawing sqrt fuel s (mkDrawing name [mkStroke [x] [y] [t]]) w =
      Raised ZeroDivisionError w).
Proof.
  assert (Z0 : forall x y, Qeq_bool (py_max (x - x) (y - y)) 0 = true).
  { intros x y. apply Qeq_bool_iff.
    destruct (py_max_cases (x - x) (y - y)) as [[-> _] | [-> _]]; ring. }
  assert (S0 : forall x y bounds w,
             Scaler_init x x y y bounds w = Raised ZeroDivisionError w).
  { intros x y bounds w. unfold Scaler_init, bind at 1, divide.
    rewrite Z0. reflexivity. }
  split; [exact S0 |].
  intros sqrt fuel s name x y t w.
  unfold plot_drawing. cbn [drawing]. unfold bind at 1.
  change (bounding_box [mkStroke [x] [y] [t]] None w)
    with (Done (Some (x, x, y, y)) w).
  cbv beta iota. unfold bind. rewrite S0. reflexivity.
Qed.

(** ** The driver *)

Lemma bind_done {A B} (m : M A) (k : A -> M B) w a w1 :
  m w = Done a w1 -> bind m k w = k a w1.
Proof. intros E. unfold bind. rewrite E. reflexivity. Qed.

Lemma plot_lines_in_order sqrt fuel s limit : forall lines count w,
  (count <= limit)%Z ->
  plot_lines sqrt fuel s lines limit count w =
  plot_in_order sqrt fuel s
    (firstn (Z.to_nat (limit - count)) (records lines)) count w.
Proof.
  induction lines as [|line rest IH]; intros count w Hle.
  - cbn. rewrite firstn_nil. reflexivity.
  - cbn [plot_lines].
    destruct (count <? limit)%Z eqn:Elt.
    + apply Z.ltb_lt in Elt.
      assert (Hge : (count >=? limit)%Z = false) by (rewrite Z.geb_leb; apply Z.leb_gt; lia).
      destruct line as [d|].
      * replace (Z.to_nat (limit - count))
          with (S (Z.to_nat (limit - (count + 1)))) by lia.
        cbn [records flat_map app firstn plot_in_order].
        unfold bind. cbn [print].
        destruct (plot_drawing sqrt fuel s d _) as [[] w2 | |]; try reflexivity.
        apply IH. lia.
      * rewrite Hge. cbn [records flat_map app]. apply IH. lia.
    + apply Z.ltb_ge in Elt.
      assert (Hge : (count >=? limit)%Z = true) by (rewrite Z.geb_leb; apply Z.leb_le; lia).
      replace (limit - count)%Z with 0%Z by lia.
      destruct line; rewrite Hge; reflexivity.
Qed.

(** ** The motion commands of a stroke *)

Lemma send_written fuel s cmd w :
  written (world_of (send fuel s cmd w)) =
  written w ++ (if is_not_MockSerialPort s then [Line cmd] else []).
Proof.
  destruct s.
  - rewrite send_serial, wait_reply_keeps_written. reflexivity.
  - destruct fuel; reflexivity.
  - cbn. rewrite app_nil_r. reflexivity.
Qed.

(** On a prompt transport [send] returns, the command is written, and the
    transport is as prompt as before. *)
Lemma send_prompt fuel cmd w :
  prompt fuel w ->
  exists w1,
    send fuel SerialObj cmd w = Done tt w1 /\
    written w1 = written w ++ [Line cmd] /\
    prompt fuel w1.
Proof.
  intros Hp. destruct (Hp (cursor w) (Nat.le_refl _)) as (k & Hk & Htok).
  destruct (wait_reply_done k fuel (announced cmd w) Hk Htok)
    as (w1 & E & Hw & Hi & Hc & _).
  exists w1. rewrite send_serial. repeat split; trivial.
  intros n Hn. rewrite Hi. apply Hp. cbn in Hc. lia.
Qed.

Lemma nonpositive_delay delta : (delta <= 0)%Q -> Qle_bool (delta / 1000) 0 = true.
Proof.
  intros H. apply Qle_bool_iff.
  setoid_replace (delta / 1000)%Q with (delta * (1 # 1000))%Q by reflexivity.
  lra.
Qed.

(** C7.  A pair of consecutive points whose timestamps do not increase, or
    whose velocity is not positive, makes the loop body return without
    sending anything and without raising: the world is unchanged, and the
    loop over the segments goes on with the next one. *)
Theorem nonpositive_segment_is_skipped sqrt fuel s scaler st i rest w t_i t_prior :
  nth_error (timestamps st) i = Some t_i ->
  nth_error (timestamps st) (i - 1) = Some t_prior ->
  ((t_i - t_prior <= 0)%Q \/
   exists x_i y_i x_p y_p,
     nth_error (x_coords st) i = Some x_i /\
     nth_error (y_coords st) i = Some y_i /\
     nth_error (x_coords st) (i - 1) = Some x_p /\
     nth_error (y_coords st) (i - 1) = Some y_p /\
     (distance sqrt (scale scaler x_i y_i) (scale scaler x_p y_p)
        / ((t_i - t_prior) / 1000) <= 0)%Q) ->
  segment sqrt fuel s scaler st i w = Done tt w /\
  for_each (i :: rest) (segment sqrt fuel s scaler st) w =
  for_each rest (segment sqrt fuel s scaler st) w.
Proof.
  intros Ht Htp Hcase.
  assert (E : segment sqrt fuel s scaler st i w = Done tt w).
  { unfold segment, bind, item. rewrite Ht, Htp. cbn [ret].
    destruct (Qle_bool ((t_i - t_prior) / 1000) 0) eqn:Ed; [reflexivity |].
    destruct Hcase as [Hd | (x_i & y_i & x_p & y_p & Hxi & Hyi & Hxp & Hyp & Hv)].
    - rewrite (nonpositive_delay _ Hd) in Ed. discriminate.
    - rewrite Hxi, Hyi, Hxp, Hyp. cbn [ret].
      apply Qle_bool_iff in Hv. rewrite Hv. reflexivity. }
  split; [exact E |].
  cbn [for_each]. unfold bind. rewrite E. reflexivity.
Qed.

Lemma nonpositive_segment_is_skipped_witness :
  let st := mkStroke [0; 10; 10] [0; 10; 10] [0; 100; 100] in
  segment sqrt_approx 1 SerialObj (mkScaler (1 # 2) 10 10 0 0 1) st 2 obedient =
    Done tt obedient /\
  segment sqrt_approx 1 SerialObj (mkScaler (1 # 2) 10 10 0 0 1)
    (mkStroke [0; 10; 10] [0; 10; 10] [0; 100; 200]) 2 obedient =
    Done tt obedient.
Proof.
  intros st. split.
  - apply (nonpositive_segment_is_skipped sqrt_approx 1 SerialObj
             (mkScaler (1 # 2) 10 10 0 0 1) st 2 [] obedient 100 100);
      [reflexivity | reflexivity | left; vm_compute; discriminate].
  - apply (nonpositive_segment_is_skipped sqrt_approx 1 SerialObj
             (mkScaler (1 # 2) 10 10 0 0 1)
             (mkStroke [0; 10; 10] [0; 10; 10] [0; 100; 200]) 2 [] obedient 200 100);
      [reflexivity | reflexivity |].
    right. exists 10, 10, 10, 10. repeat split; vm_compute; discriminate.
Defined.

(** C9.  A stroke of one sample, on a transport that answers every command:
    [plot_stroke] returns normally and has written exactly three commands,
    pen up, the rapid move to the scaled sample, pen down, and no feed
    move. *)
Theorem single_sample_stroke_emits_three_commands sqrt fuel scaler x y t w :
  prompt fuel w ->
  exists w1,
    plot_stroke sqrt fuel SerialObj scaler (mkStroke [x] [y] [t]) w = Done tt w1 /\
    written w1 =
      written w ++
      [Line (G1_Z PEN_UP 7000);
       Line (G0_XY (fst (scale scaler x y)) (snd (scale scaler x y)) 11500);
       Line (G1_Z PEN_DOWN 7000)].
Proof.
  intros Hp.
  destruct (send_prompt fuel (G1_Z PEN_UP 7000) w Hp) as (w1 & E1 & W1 & P1).
  destruct (send_prompt fuel
              (G0_XY (fst (scale scaler x y)) (snd (scale scaler x y)) 11500) w1 P1)
    as (w2 & E2 & W2 & P2).
  destruct (send_prompt fuel (G1_Z PEN_DOWN 7000) w2 P2) as (w3 & E3 & W3 & _).
  exists w3. split.
  - unfold plot_stroke. rewrite (bind_done _ _ _ _ _ E1).
    cbn [x_coords y_coords item nth_error].
    unfold bind at 1. cbn [ret]. unfold bind at 1. cbn [ret].
    cbn [scale fst snd] in E2. cbn [scale].
    rewrite (bind_done _ _ _ _ _ E2), (bind_done _ _ _ _ _ E3).
    reflexivity.
  - rewrite W3, W2, W1, <- !app_assoc. reflexivity.
Qed.

Lemma single_sample_stroke_emits_three_commands_witness :
  exists w1,
    plot_stroke sqrt_approx 1 SerialObj (mkScaler (1 # 2) 10 10 0 0 1)
      (mkStroke [5] [7] [0]) obedient = Done tt w1 /\
    List.length (written w1) = 3%nat.
Proof.
  destruct (single_sample_stroke_emits_three_commands sqrt_approx 1
              (mkScaler (1 # 2) 10 10 0 0 1) 5 7 0 obedient) as (w1 & E & W).
  - intros n _. exists 0%nat. split; [lia | reflexivity].
  - exists w1. split; [exact E |]. rewrite W. reflexivity.
Defined.

(** ** What a run writes *)

Lemma emits_quiet {A} P (m : M A) :
  (forall w, written (world_of (m w)) = written w) -> emits P m.
Proof.
  intros H w. exists []. rewrite H, app_nil_r. split; [reflexivity | constructor].
Qed.

Lemma emits_bind {A B} P (m : M A) (k : A -> M B) :
  emits P m -> (forall a, emits P (k a)) -> emits P (bind m k).
Proof.
  intros Hm Hk w. unfold bind.
  destruct (Hm w) as (new & E & F).
  destruct (m w) as [a w1 | e w1 | w1]; cbn [world_of] in *.
  - destruct (Hk a w1) as (new' & E' & F').
    exists (new ++ new'). rewrite E', E, app_assoc.
    split; [reflexivity | apply Forall_app; split; assumption].
  - exists new. split; assumption.
  - exists new. split; assumption.
Qed.

Lemma emits_ret {A} P (a : A) : emits P (ret a).
Proof. apply emits_quiet. reflexivity. Qed.

Lemma emits_raise {A} P e : emits P (@raise A e).
Proof. apply emits_quiet. reflexivity. Qed.

Lemma emits_print P p : emits P (print p).
Proof. apply emits_quiet. reflexivity. Qed.

Lemma emits_random P : emits P random.
Proof. apply emits_quiet. reflexivity. Qed.

Lemma emits_item P l i : emits P (item l i).
Proof. apply emits_quiet. intros w. unfold item. destruct (nth_error l i); reflexivity. Qed.

Lemma emits_seq_min P l : emits P (seq_min l).
Proof. apply emits_quiet. intros w. destruct l; reflexivity. Qed.

Lemma emits_seq_max P l : emits P (seq_max l).
Proof. apply emits_quiet. intros w. destruct l; reflexivity. Qed.

Lemma emits_divide P a b : emits P (divide a b).
Proof. apply emits_quiet. intros w. unfold divide. destruct (Qeq_bool b 0); reflexivity. Qed.

Lemma emits_send P fuel s cmd : P (Line cmd) -> emits P (send fuel s cmd).
Proof.
  intros H w. rewrite send_written. eexists. split; [reflexivity |].
  destruct (is_not_MockSerialPort s); repeat constructor. exact H.
Qed.

Lemma emits_for_each {A} P (body : A -> M unit) l :
  (forall a, emits P (body a)) -> emits P (for_each l body).
Proof.
  intros H. induction l as [|a l IH]; cbn [for_each].
  - apply emits_ret.
  - apply emits_bind; [apply H | intros _; exact IH].
Qed.

Create HintDb emits.
#[local] Hint Resolve emits_ret emits_raise emits_print emits_random emits_item
  emits_seq_min emits_seq_max emits_divide : emits.

Ltac emits_steps :=
  repeat first
    [ apply emits_send; cbn; trivial
    | solve [auto with emits]
    | apply emits_bind; [| intro] ].

Lemma emits_Scaler_init P a b c d bounds : emits P (Scaler_init a b c d bounds).
Proof. unfold Scaler_init, uniform. emits_steps. Qed.

Lemma emits_bounding_box P strokes : forall acc, emits P (bounding_box strokes acc).
Proof.
  induction strokes as [|st rest IH]; intros acc; cbn [bounding_box].
  - apply emits_ret.
  - emits_steps.
Qed.

Lemma clamped_within_max v : (py_min v 11500 <= 11500)%Q.
Proof. destruct (py_min_cases v 11500) as [[-> H] | [-> _]]; [exact H | apply Qle_refl]. Qed.

Lemma emits_segment sqrt fuel s scaler st i :
  emits feed_within_max (segment sqrt fuel s scaler st i).
Proof.
  unfold segment. emits_steps.
  destruct (Qle_bool _ 0); [apply emits_ret |].
  emits_steps. cbv zeta.
  destruct (Qle_bool _ 0); [apply emits_ret |].
  apply emits_send. apply clamped_within_max.
Qed.

Lemma emits_plot_stroke sqrt fuel s scaler st :
  emits feed_within_max (plot_stroke sqrt fuel s scaler st).
Proof.
  unfold plot_stroke. emits_steps.
  apply emits_for_each. intros i. apply emits_segment.
Qed.

Lemma emits_plot_drawing sqrt fuel s d :
  emits feed_within_max (plot_drawing sqrt fuel s d).
Proof.
  unfold plot_drawing. apply emits_bind; [apply emits_bounding_box | intros extremes].
  apply emits_bind; [| intros _; apply emits_send; exact I].
  destruct extremes as [[[[lo_x hi_x] lo_y] hi_y] |].
  - apply emits_bind; [apply emits_Scaler_init | intros scaler].
    apply emits_for_each. intros st. apply emits_plot_stroke.
  - emits_steps.
Qed.

Lemma positive_delay delta : (0 < delta)%Q -> Qle_bool (delta / 1000) 0 = false.
Proof.
  intros H. destruct (Qle_bool (delta / 1000) 0) eqn:E; [| reflexivity].
  apply Qle_bool_iff in E.
  setoid_replace (delta / 1000)%Q with (delta * (1 # 1000))%Q in E by reflexivity.
  lra.
Qed.

(** C8.  For a segment with increasing timestamps and a positive velocity,
    the loop body writes one feed move, to the scaled end point, whose feed
    rate is the smaller of [velocity * SPEED_MULTIPLIER] and 11500, the
    velocity being the distance between the two scaled points divided by
    the delay in seconds.  That rate is at most 11500, and so is the rate
    of every feed move a whole [plot_drawing] writes, however it ends. *)
Theorem feed_rate_is_clamped_velocity sqrt fuel s scaler st i w
    t_i t_prior x_i y_i x_p y_p :
  nth_error (timestamps st) i = Some t_i ->
  nth_error (timestamps st) (i - 1) = Some t_prior ->
  nth_error (x_coords st) i = Some x_i ->
  nth_error (y_coords st) i = Some y_i ->
  nth_error (x_coords st) (i - 1) = Some x_p ->
  nth_error (y_coords st) (i - 1) = Some y_p ->
  is_not_MockSerialPort s = true ->
  (0 < t_i - t_prior)%Q ->
  (0 < segment_velocity sqrt scaler x_i y_i t_i x_p y_p t_prior)%Q ->
  let velocity := segment_velocity sqrt scaler x_i y_i t_i x_p y_p t_prior in
  let feed := py_min (velocity * SPEED_MULTIPLIER)%Q 11500 in
  written (world_of (segment sqrt fuel s scaler st i w)) =
    written w ++
    [Line (G1_XY (fst (scale scaler x_i y_i)) (snd (scale scaler x_i y_i)) feed)] /\
  (feed <= velocity * SPEED_MULTIPLIER)%Q /\
  (feed <= 11500)%Q /\
  (feed = (velocity * SPEED_MULTIPLIER)%Q \/ feed = 11500%Q) /\
  (forall d w', exists new,
      written (world_of (plot_drawing sqrt fuel s d w')) = written w' ++ new /\
      Forall feed_within_max new).
Proof.
  intros Ht Htp Hxi Hyi Hxp Hyp Hs Hd Hv velocity feed.
  split; [| split; [| split; [| split]]].
  - unfold segment, bind, item. rewrite Ht, Htp. cbn [ret].
    rewrite (positive_delay _ Hd), Hxi, Hyi, Hxp, Hyp. cbn [ret].
    fold (segment_velocity sqrt scaler x_i y_i t_i x_p y_p t_prior).
    fold velocity.
    destruct (Qle_bool velocity 0) eqn:E.
    + apply Qle_bool_iff in E. exfalso. exact (Qlt_not_le _ _ Hv E).
    + rewrite send_written, Hs. reflexivity.
  - subst feed. destruct (py_min_cases (velocity * SPEED_MULTIPLIER) 11500)
      as [[-> _] | [-> H]]; [apply Qle_refl | apply Qlt_le_weak; exact H].
  - apply clamped_within_max.
  - subst feed. destruct (py_min_cases (velocity * SPEED_MULTIPLIER) 11500)
      as [[-> _] | [-> _]]; auto.
  - intros d w'. apply emits_plot_drawing.
Qed.

Lemma feed_rate_is_clamped_velocity_witness :
  let scaler := mkScaler (1 # 2) 10 10 0 0 1 in
  let st := mkStroke [0; 3] [0; 4] [0; 1000] in
  written (world_of (segment sqrt_approx 1 SerialObj scaler st 1 obedient)) =
    [Line (G1_XY (fst (scale scaler 3 4)) (snd (scale scaler 3 4))
             (py_min (segment_velocity sqrt_approx scaler 3 4 1000 0 0 0
                      * SPEED_MULTIPLIER)%Q 11500))] /\
  (py_min (segment_velocity sqrt_approx scaler 3 4 1000 0 0 0
           * SPEED_MULTIPLIER)%Q 11500 == 100)%Q.
Proof.
  intros scaler st. split.
  - apply (feed_rate_is_clamped_velocity sqrt_approx 1 SerialObj scaler st 1
             obedient 1000 0 3 4 0 0);
      try reflexivity; vm_compute; reflexivity.
  - vm_compute. reflexivity.
Defined.

(** * Further properties of the code *)

(** ** [Scaler] *)

(** [scale] is one uniform scaling followed by a flip of the y axis: the
    difference of two images is the difference of the points times the
    multiplier, negated on y, so squared distances are multiplied by the
    square of the multiplier and the aspect ratio is kept. *)
Theorem scale_is_uniform sc x y x' y' :
  (fst (scale sc x y) - fst (scale sc x' y') == multiplier sc * (x - x'))%Q /\
  (snd (scale sc x y) - snd (scale sc x' y') == - (multiplier sc * (y - y')))%Q /\
  ((fst (scale sc x y) - fst (scale sc x' y')) ^ 2
   + (snd (scale sc x y) - snd (scale sc x' y')) ^ 2
   == multiplier sc ^ 2 * ((x - x') ^ 2 + (y - y') ^ 2))%Q.
Proof. cbn [scale fst snd]. repeat split; ring. Qed.

(** A [Scaler] that could be built keeps the lower corner of the box, which
    [scale] sends to the two offsets plus the margin 5; its multiplier makes
    the longer side of the box [bounds * smaller_scale] long; and it has
    taken three values from the random source. *)
Theorem scaler_fits_longer_side lo_x hi_x lo_y hi_y bounds w sc w1 :
  Scaler_init lo_x hi_x lo_y hi_y bounds w = Done sc w1 ->
  min_x sc = lo_x /\ min_y sc = lo_y /\
  (fst (scale sc lo_x lo_y) == offset_x sc + 5)%Q /\
  (snd (scale sc lo_x lo_y) == - (offset_y sc + 5))%Q /\
  (multiplier sc * py_max (hi_x - lo_x) (hi_y - lo_y)
   == bounds * smaller_scale sc)%Q /\
  rand_pos w1 = (rand_pos w + 3)%nat /\
  written w1 = written w.
Proof.
  intros Hinit. unfold Scaler_init, bind at 1, divide in Hinit.
  set (M := py_max (hi_x - lo_x) (hi_y - lo_y)) in *.
  destruct (Qeq_bool M 0) eqn:EM; [discriminate |].
  cbn in Hinit. injection Hinit as Hsc Hw. subst sc w1.
  cbn [min_x min_y multiplier smaller_scale offset_x offset_y scale fst snd
       rand_pos written].
  assert (HM : ~ (M == 0)%Q).
  { intros H0. apply Qeq_bool_iff in H0. congruence. }
  repeat split; try ring; try lia.
  field. exact HM.
Qed.

Lemma scaler_fits_longer_side_witness :
  exists sc w1,
    Scaler_init 0 10 0 4 250 obedient = Done sc w1 /\
    (multiplier sc * py_max (10 - 0) (4 - 0) == 250 * smaller_scale sc)%Q.
Proof.
  do 2 eexists. split; [vm_compute; reflexivity |].
  eapply (scaler_fits_longer_side 0 10 0 4 250 obedient).
  vm_compute. reflexivity.
Defined.

Lemma placed_in_square bounds k s r off v :
  (0 <= bounds)%Q -> (0 <= k)%Q -> (0 <= s)%Q ->
  (0 <= v <= r)%Q ->
  (0 <= off <= bounds - r * (k * s))%Q ->
  (5 <= v * (k * s) + off + 5 <= bounds + 5)%Q.
Proof.
  intros Hb Hk Hs [Hv0 Hv1] [Ho0 Ho1].
  assert (Hm : (0 <= k * s)%Q) by nra.
  assert (E : (0 <= v * (k * s) <= r * (k * s))%Q) by (split; nra).
  split; lra.
Qed.

(** What [Scaler] builds from three values of [random()] in the unit
    interval, and where it puts the box. *)
Lemma scaler_init_in_square lo_x hi_x lo_y hi_y bounds w :
  (lo_x <= hi_x)%Q -> (lo_y <= hi_y)%Q ->
  (lo_x < hi_x \/ lo_y < hi_y)%Q ->
  (0 <= bounds)%Q ->
  (forall i, (i < 3)%nat -> 0 <= rand w (rand_pos w + i) <= 1)%Q ->
  exists sc w1,
    Scaler_init lo_x hi_x lo_y hi_y bounds w = Done sc w1 /\
    (1 # 4 <= smaller_scale sc <= 3 # 4)%Q /\
    (0 <= offset_x sc <= bounds - (hi_x - lo_x) * multiplier sc)%Q /\
    (0 <= offset_y sc <= bounds - (hi_y - lo_y) * multiplier sc)%Q /\
    forall x y,
      (lo_x <= x <= hi_x)%Q -> (lo_y <= y <= hi_y)%Q ->
      (5 <= fst (scale sc x y) <= bounds + 5)%Q /\
      (- (bounds + 5) <= snd (scale sc x y) <= - (5))%Q.
Proof.
  intros Hx Hy Hpos Hb Hr.
  pose proof (Hr 0%nat ltac:(lia)) as [Hu0 Hu0'].
  pose proof (Hr 1%nat ltac:(lia)) as [Hu1 Hu1'].
  pose proof (Hr 2%nat ltac:(lia)) as [Hu2 Hu2'].
  rewrite Nat.add_0_r in Hu0, Hu0'.
  replace (rand_pos w + 1)%nat with (S (rand_pos w)) in Hu1, Hu1' by lia.
  replace (rand_pos w + 2)%nat with (S (S (rand_pos w))) in Hu2, Hu2' by lia.
  unfold Scaler_init, bind at 1, divide.
  set (M := py_max (hi_x - lo_x) (hi_y - lo_y)).
  assert (HM : (0 < M)%Q).
  { subst M. destruct (py_max_cases (hi_x - lo_x) (hi_y - lo_y))
      as [[-> Hle] | [-> Hlt]]; destruct Hpos; lra. }
  assert (HMx : (hi_x - lo_x <= M)%Q).
  { subst M. destruct (py_max_cases (hi_x - lo_x) (hi_y - lo_y))
      as [[-> Hle] | [-> Hlt]]; lra. }
  assert (HMy : (hi_y - lo_y <= M)%Q).
  { subst M. destruct (py_max_cases (hi_x - lo_x) (hi_y - lo_y))
      as [[-> Hle] | [-> Hlt]]; lra. }
  destruct (Qeq_bool M 0) eqn:EM.
  { apply Qeq_bool_iff in EM. rewrite EM in HM. exfalso. exact (Qlt_irrefl _ HM). }
  do 2 eexists. split; [reflexivity |].
  cbn [smaller_scale offset_x offset_y multiplier min_x min_y scale fst snd
       rand rand_pos].
  set (u0 := rand w (rand_pos w)) in *.
  set (u1 := rand w (S (rand_pos w))) in *.
  set (u2 := rand w (S (S (rand_pos w)))) in *.
  set (s := ((1 # 4) + ((3 # 4) - (1 # 4)) * u0)%Q).
  set (k := (bounds / M)%Q).
  assert (Hk : (k * M == bounds)%Q).
  { subst k. field. intros H0. rewrite H0 in HM. exact (Qlt_irrefl _ HM). }
  clearbody k u0 u1 u2 M. clear Hr EM Hpos.
  assert (Hs : (1 # 4 <= s <= 3 # 4)%Q) by (subst s; split; lra).
  clearbody s. destruct Hs as [Hs0 Hs1].
  assert (Hkpos : (0 <= k)%Q).
  { destruct (Qlt_le_dec k 0) as [Hneg | ?]; [| assumption]. nra. }
  assert (Hks : (0 <= k * s)%Q) by nra.
  assert (Hfx : (0 <= bounds - (hi_x - lo_x) * k * s)%Q) by nra.
  assert (Hfy : (0 <= bounds - (hi_y - lo_y) * k * s)%Q) by nra.
  assert (Ox : (0 <= 0 + (bounds - (hi_x - lo_x) * k * s - 0) * u1
                <= bounds - (hi_x - lo_x) * (k * s))%Q) by (split; nra).
  assert (Oy : (0 <= 0 + (bounds - (hi_y - lo_y) * k * s - 0) * u2
                <= bounds - (hi_y - lo_y) * (k * s))%Q) by (split; nra).
  split; [split; assumption |]. split; [exact Ox |]. split; [exact Oy |].
  intros x y [Hx0 Hx1] [Hy0 Hy1].
  pose proof (placed_in_square bounds k s (hi_x - lo_x) _ (x - lo_x)
                Hb Hkpos ltac:(lra) ltac:(split; lra) Ox) as Px.
  pose proof (placed_in_square bounds k s (hi_y - lo_y) _ (y - lo_y)
                Hb Hkpos ltac:(lra) ltac:(split; lra) Oy) as Py.
  split; [exact Px |]. split; lra.
Qed.

(** With a box that has some extent, a square of side [bounds >= 0] and
    three values of [random()] in the unit interval, [Scaler] is built, its
    inner scale is between 1/4 and 3/4, its offsets leave room for the
    scaled box, and every point of the box lands in the square, inset by 5:
    x in [5, bounds + 5] and y in [-(bounds + 5), -5]. *)
Theorem scaler_places_box_in_square lo_x hi_x lo_y hi_y bounds w :
  (lo_x <= hi_x)%Q -> (lo_y <= hi_y)%Q ->
  (lo_x < hi_x \/ lo_y < hi_y)%Q ->
  (0 <= bounds)%Q ->
  (forall i, (i < 3)%nat -> 0 <= rand w (rand_pos w + i) <= 1)%Q ->
  exists sc w1,
    Scaler_init lo_x hi_x lo_y hi_y bounds w = Done sc w1 /\
    (1 # 4 <= smaller_scale sc <= 3 # 4)%Q /\
    (0 <= offset_x sc <= bounds - (hi_x - lo_x) * multiplier sc)%Q /\
    (0 <= offset_y sc <= bounds - (hi_y - lo_y) * multiplier sc)%Q /\
    forall x y,
      (lo_x <= x <= hi_x)%Q -> (lo_y <= y <= hi_y)%Q ->
      (5 <= fst (scale sc x y) <= bounds + 5)%Q /\
      (- (bounds + 5) <= snd (scale sc x y) <= - (5))%Q.
Proof. apply scaler_init_in_square. Qed.

Lemma scaler_places_box_in_square_witness :
  exists sc w1,
    Scaler_init 0 10 0 4 250 obedient = Done sc w1 /\
    (5 <= fst (scale sc 10 4) <= 250 + 5)%Q.
Proof.
  destruct (scaler_places_box_in_square 0 10 0 4 250 obedient)
    as (sc & w1 & E & _ & _ & _ & H).
  - vm_compute. discriminate.
  - vm_compute. discriminate.
  - left. vm_compute. reflexivity.
  - vm_compute. discriminate.
  - intros i _. split; vm_compute; discriminate.
  - exists sc, w1. split; [exact E |].
    apply (H 10 4); split; vm_compute; discriminate.
Defined.

(** ** The bounding box *)

Lemma fold_min_least l : forall a,
  (fold_left py_min l a <= a)%Q /\
  Forall (fun v => (fold_left py_min l a <= v)%Q) l /\
  In (fold_left py_min l a) (a :: l).
Proof.
  induction l as [|x l IH]; intros a; cbn [fold_left].
  - split; [apply Qle_refl |]. split; [constructor | left; reflexivity].
  - destruct (IH (py_min a x)) as (H1 & H2 & H3).
    assert (Ha : (py_min a x <= a)%Q /\ (py_min a x <= x)%Q).
    { destruct (py_min_cases a x) as [[-> H] | [-> H]]; split;
        try apply Qle_refl; try assumption. apply Qlt_le_weak. exact H. }
    destruct Ha as [Ha Hx].
    split; [eapply Qle_trans; eassumption |]. split.
    + constructor; [eapply Qle_trans; eassumption | exact H2].
    + destruct H3 as [H3 | H3].
      * rewrite <- H3.
        destruct (py_min_cases a x) as [[-> _] | [-> _]];
          [left | right; left]; reflexivity.
      * right. right. exact H3.
Qed.

Lemma fold_max_greatest l : forall a,
  (a <= fold_left py_max l a)%Q /\
  Forall (fun v => (v <= fold_left py_max l a)%Q) l /\
  In (fold_left py_max l a) (a :: l).
Proof.
  induction l as [|x l IH]; intros a; cbn [fold_left].
  - split; [apply Qle_refl |]. split; [constructor | left; reflexivity].
  - destruct (IH (py_max a x)) as (H1 & H2 & H3).
    assert (Ha : (a <= py_max a x)%Q /\ (x <= py_max a x)%Q).
    { destruct (py_max_cases a x) as [[-> H] | [-> H]]; split;
        try apply Qle_refl; try assumption. apply Qlt_le_weak. exact H. }
    destruct Ha as [Ha Hx].
    split; [eapply Qle_trans; eassumption |]. split.
    + constructor; [eapply Qle_trans; eassumption | exact H2].
    + destruct H3 as [H3 | H3].
      * rewrite <- H3.
        destruct (py_max_cases a x) as [[-> _] | [-> _]];
          [left | right; left]; reflexivity.
      * right. right. exact H3.
Qed.

(** The extremes of one sequence of samples. *)
Lemma range_first a t :
  range_of (fold_left py_min t a) (fold_left py_max t a) (a :: t).
Proof.
  destruct (fold_min_least t a) as (L1 & L2 & L3).
  destruct (fold_max_greatest t a) as (G1 & G2 & G3).
  split; [| split; assumption].
  constructor; [split; assumption |].
  apply Forall_forall. intros v Hv.
  rewrite Forall_forall in L2, G2. split; auto.
Qed.

(** The running extremes after one more sequence of samples. *)
Lemma range_extend lo hi pre a t :
  range_of lo hi pre ->
  range_of (py_min lo (fold_left py_min t a)) (py_max hi (fold_left py_max t a))
           (pre ++ a :: t).
Proof.
  intros (F & Ilo & Ihi).
  destruct (range_first a t) as (F' & Ilo' & Ihi').
  set (m := fold_left py_min t a) in *. set (g := fold_left py_max t a) in *.
  assert (Hmin : (py_min lo m <= lo)%Q /\ (py_min lo m <= m)%Q).
  { destruct (py_min_cases lo m) as [[-> H] | [-> H]]; split;
      try apply Qle_refl; try assumption. apply Qlt_le_weak. exact H. }
  assert (Hmax : (hi <= py_max hi g)%Q /\ (g <= py_max hi g)%Q).
  { destruct (py_max_cases hi g) as [[-> H] | [-> H]]; split;
      try apply Qle_refl; try assumption. apply Qlt_le_weak. exact H. }
  destruct Hmin as [Hm1 Hm2]. destruct Hmax as [Hg1 Hg2].
  split; [| split].
  - apply Forall_app. split.
    + eapply Forall_impl; [| exact F]. intros v [H1 H2].
      split; [apply (Qle_trans _ lo) | apply (Qle_trans _ hi)]; assumption.
    + eapply Forall_impl; [| exact F']. intros v [H1 H2].
      split; [apply (Qle_trans _ m) | apply (Qle_trans _ g)]; assumption.
  - apply in_or_app.
    destruct (py_min_cases lo m) as [[-> _] | [-> _]]; [left | right]; assumption.
  - apply in_or_app.
    destruct (py_max_cases hi g) as [[-> _] | [-> _]]; [left | right]; assumption.
Qed.

Lemma bounding_box_cons a t c t' ts rest acc w :
  bounding_box (mkStroke (a :: t) (c :: t') ts :: rest) acc w =
  bounding_box rest
    (Some match acc with
          | None => (fold_left py_min t a, fold_left py_max t a,
                     fold_left py_min t' c, fold_left py_max t' c)
          | Some (a0, b0, c0, d0) =>
              (py_min a0 (fold_left py_min t a), py_max b0 (fold_left py_max t a),
               py_min c0 (fold_left py_min t' c), py_max d0 (fold_left py_max t' c))
          end) w.
Proof. reflexivity. Qed.

Lemma bounding_box_running strokes : forall pre_x pre_y acc,
  Forall has_samples strokes ->
  match acc with
  | None => pre_x = [] /\ pre_y = []
  | Some b => extremes_of b pre_x pre_y
  end ->
  exists res,
    (forall w, bounding_box strokes acc w = Done res w) /\
    match res with
    | None => strokes = [] /\ acc = None
    | Some b => extremes_of b (pre_x ++ all_x strokes) (pre_y ++ all_y strokes)
    end.
Proof.
  induction strokes as [|st rest IH]; intros pre_x pre_y acc Hs Hacc.
  - exists acc. split; [reflexivity |].
    destruct acc as [b|]; [| split; reflexivity].
    cbn [all_x all_y flat_map]. rewrite !app_nil_r. exact Hacc.
  - inversion Hs as [| ? ? [Hx Hy] Hrest]; subst.
    destruct st as [[|a t] [|c t'] ts]; cbn [x_coords y_coords] in Hx, Hy;
      try congruence.
    edestruct (IH (pre_x ++ a :: t) (pre_y ++ c :: t')) as (res & E & Hres);
      [exact Hrest | | ].
    2:{ exists res. split.
        - intros w. rewrite bounding_box_cons. apply E.
        - destruct res as [b|].
          + cbn [all_x all_y flat_map x_coords y_coords].
            fold (all_x rest). fold (all_y rest).
            rewrite !app_assoc. exact Hres.
          + destruct Hres as [_ H]. discriminate H. }
    destruct acc as [[[[a0 b0] c0] d0] |].
    + destruct Hacc as [Rx Ry]. split; apply range_extend; assumption.
    + destruct Hacc as [-> ->]. split; apply range_first.
Qed.

(** When every stroke has samples, the extremes [plot_drawing] computes are
    the least and the greatest x and y among all the samples of the drawing:
    they bound every sample and each of them is a sample.  Nothing is
    written or read meanwhile. *)
Theorem bounding_box_encloses_samples strokes :
  strokes <> [] ->
  Forall has_samples strokes ->
  exists b,
    (forall w, bounding_box strokes None w = Done (Some b) w) /\
    extremes_of b (all_x strokes) (all_y strokes).
Proof.
  intros Hne Hs.
  destruct (bounding_box_running strokes [] [] None Hs) as (res & E & Hres);
    [split; reflexivity |].
  destruct res as [b|].
  - exists b. split; [exact E | exact Hres].
  - destruct Hres as [H _]. contradiction.
Qed.

Lemma bounding_box_encloses_samples_witness :
  exists b,
    bounding_box [mkStroke [3; 1; 2] [5; 9; 7] [0; 1; 2]; mkStroke [8] [4] [3]]
      None obedient = Done (Some b) obedient /\
    extremes_of b [3; 1; 2; 8] [5; 9; 7; 4].
Proof.
  destruct (bounding_box_encloses_samples
              [mkStroke [3; 1; 2] [5; 9; 7] [0; 1; 2]; mkStroke [8] [4] [3]])
    as (b & E & H).
  - discriminate.
  - repeat constructor; discriminate.
  - exists b. split; [apply E | exact H].
Defined.

Lemma bounding_box_outcomes strokes : forall acc w,
  (exists res, bounding_box strokes acc w = Done res w) \/
  bounding_box strokes acc w = Raised ValueError w.
Proof.
  induction strokes as [|st rest IH]; intros acc w.
  - left. exists acc. reflexivity.
  - destruct st as [[|a t] [|c t'] ts]; try (right; reflexivity).
    rewrite bounding_box_cons. apply IH.
Qed.

(** A stroke whose x or y sequence is empty, anywhere in the drawing, makes
    [plot_drawing] raise [ValueError] while it looks for the extremes:
    nothing has been sent, not even for the strokes before it. *)
Theorem empty_stroke_raises_value_error st strokes :
  In st strokes ->
  x_coords st = [] \/ y_coords st = [] ->
  (forall acc w, bounding_box strokes acc w = Raised ValueError w) /\
  (forall sqrt fuel s name w,
      plot_drawing sqrt fuel s (mkDrawing name strokes) w = Raised ValueError w).
Proof.
  intros Hin Hempty.
  assert (B : forall acc w, bounding_box strokes acc w = Raised ValueError w).
  { induction strokes as [|hd rest IH]; [contradiction |].
    intros acc w. destruct Hin as [-> | Hin].
    - destruct st as [[|a t] [|c t'] ts]; cbn [x_coords y_coords] in Hempty;
        try reflexivity.
      destruct Hempty; discriminate.
    - destruct hd as [[|a t] [|c t'] ts]; try reflexivity.
      rewrite bounding_box_cons. apply IH. exact Hin. }
  split; [exact B |].
  intros sqrt fuel s name w. unfold plot_drawing. cbn [drawing].
  unfold bind at 1. rewrite B. reflexivity.
Qed.

Lemma empty_stroke_raises_value_error_witness :
  plot_drawing sqrt_approx 1 SerialObj
    (mkDrawing "gap" [mkStroke [0; 10] [0; 10] [0; 100]; mkStroke [] [] []])
    obedient = Raised ValueError obedient.
Proof.
  apply (empty_stroke_raises_value_error (mkStroke [] [] [])
           [mkStroke [0; 10] [0; 10] [0; 100]; mkStroke [] [] []]).
  - right. left. reflexivity.
  - left. reflexivity.
Defined.

(** ** One command, one reply *)

Lemma wait_reply_exact k : forall fuel w,
  (k < fuel)%nat ->
  (forall j, (j < k)%nat -> Text.has_token (reply_at w j) = false) ->
  Text.has_token (reply_at w k) = true ->
  exists w1,
    wait_reply fuel SerialObj w = Done tt w1 /\
    cursor w1 = (cursor w + k + 1)%nat /\
    written w1 = written w.
Proof.
  induction k as [|k IH]; intros fuel w Hlt Hnone Htok;
    (destruct fuel as [|fuel]; [lia |]).
  - destruct (wait_reply_stop fuel w Htok) as (w1 & E & Hw & _ & Hc & _).
    exists w1. repeat split; trivial. lia.
  - destruct (wait_reply_skip fuel w) as (w1 & E & Hw & Hi & Hc & _).
    { apply Hnone. lia. }
    destruct (IH fuel w1) as (w2 & E2 & Hc2 & Hw2); [lia | | |].
    + intros j Hj. unfold reply_at in *. rewrite Hi, Hc.
      replace (S (cursor w) + j)%nat with (cursor w + S j)%nat by lia.
      apply Hnone. lia.
    + unfold reply_at in *. rewrite Hi, Hc.
      replace (S (cursor w) + k)%nat with (cursor w + S k)%nat by lia.
      exact Htok.
    + exists w2. rewrite E. repeat split; trivial; [lia | congruence].
Qed.

(** [send] reads the transport up to the first line that contains "ok",
    "error" or "alarm", and not beyond: when that line is the [k]-th to
    come and the fuel reaches it, [send] returns having read [k + 1] lines
    and written its command once, so the next command starts with the line
    after the reply. *)
Theorem send_reads_up_to_first_token k fuel cmd w :
  (k < fuel)%nat ->
  (forall j, (j < k)%nat -> Text.has_token (reply_at w j) = false) ->
  Text.has_token (reply_at w k) = true ->
  exists w1,
    send fuel SerialObj cmd w = Done tt w1 /\
    cursor w1 = (cursor w + k + 1)%nat /\
    written w1 = written w ++ [Line cmd].
Proof.
  intros Hlt Hnone Htok. rewrite send_serial.
  destruct (wait_reply_exact k fuel (announced cmd w) Hlt Hnone Htok)
    as (w1 & E & Hc & Hw).
  exists w1. repeat split; assumption.
Qed.

Lemma send_reads_up_to_first_token_witness :
  exists w1,
    send 3 SerialObj (Fixed "G21")
      (fresh (fun n => match n with
                       | 0 => ""
                       | 1 => "[MSG: busy]"
                       | _ => "ok"
                       end%nat)) = Done tt w1 /\
    cursor w1 = 3%nat.
Proof.
  destruct (send_reads_up_to_first_token 2 3 (Fixed "G21")
              (fresh (fun n => match n with
                               | 0 => ""
                               | 1 => "[MSG: busy]"
                               | _ => "ok"
                               end%nat))) as (w1 & E & Hc & _).
  - lia.
  - intros j Hj. destruct j as [|[|j]]; [reflexivity | reflexivity | lia].
  - reflexivity.
  - exists w1. split; [exact E | exact Hc].
Defined.

(** ** Strokes on a transport that answers *)

Lemma item_present (l : list Q) i :
  (i < List.length l)%nat -> exists v, nth_error l i = Some v.
Proof.
  intros H. destruct (nth_error l i) as [v|] eqn:E; [eauto |].
  apply nth_error_None in E. lia.
Qed.

Lemma segment_prompt sqrt fuel scaler st i w :
  prompt fuel w -> well_formed st ->
  (1 <= i < List.length (x_coords st))%nat ->
  exists w1 new,
    segment sqrt fuel SerialObj scaler st i w = Done tt w1 /\
    prompt fuel w1 /\
    written w1 = written w ++ new /\
    Forall is_feed_move new /\ (List.length new <= 1)%nat.
Proof.
  intros Hp (Hlen & Hy & Ht) Hi.
  destruct (item_present (timestamps st) i) as (t_i & Eti); [lia |].
  destruct (item_present (timestamps st) (i - 1)) as (t_p & Etp); [lia |].
  destruct (item_present (x_coords st) i) as (x_i & Exi); [lia |].
  destruct (item_present (y_coords st) i) as (y_i & Eyi); [lia |].
  destruct (item_present (x_coords st) (i - 1)) as (x_p & Exp); [lia |].
  destruct (item_present (y_coords st) (i - 1)) as (y_p & Eyp); [lia |].
  unfold segment, bind, item. rewrite Eti, Etp. cbn [ret].
  destruct (Qle_bool ((t_i - t_p) / 1000) 0).
  { exists w, []. rewrite app_nil_r. repeat split; auto. }
  rewrite Exi, Eyi, Exp, Eyp. cbn [ret].
  match goal with |- context [Qle_bool ?v 0] => destruct (Qle_bool v 0) end.
  { exists w, []. rewrite app_nil_r. repeat split; auto. }
  match goal with |- context [send fuel SerialObj ?c w] =>
    destruct (send_prompt fuel c w Hp) as (w1 & E & Hw & Hp1);
    exists w1, [Line c]
  end.
  repeat split; trivial. repeat constructor.
Qed.

Lemma segments_prompt sqrt fuel scaler st idx : forall w,
  prompt fuel w -> well_formed st ->
  Forall (fun i => (1 <= i < List.length (x_coords st))%nat) idx ->
  exists w1 new,
    for_each idx (segment sqrt fuel SerialObj scaler st) w = Done tt w1 /\
    prompt fuel w1 /\
    written w1 = written w ++ new /\
    Forall is_feed_move new /\ (List.length new <= List.length idx)%nat.
Proof.
  induction idx as [|i idx IH]; intros w Hp Hwf Hidx.
  - exists w, []. rewrite app_nil_r. repeat split; auto.
  - inversion Hidx as [| ? ? Hi Hrest]; subst.
    destruct (segment_prompt sqrt fuel scaler st i w Hp Hwf Hi)
      as (w1 & new1 & E1 & Hp1 & Hw1 & F1 & L1).
    destruct (IH w1 Hp1 Hwf Hrest) as (w2 & new2 & E2 & Hp2 & Hw2 & F2 & L2).
    exists w2, (new1 ++ new2). cbn [for_each].
    rewrite (bind_done _ _ _ _ _ E1). repeat split; trivial.
    + rewrite Hw2, Hw1, app_assoc. reflexivity.
    + apply Forall_app. split; assumption.
    + rewrite length_app. cbn [List.length]. lia.
Qed.

Lemma plot_stroke_prompt sqrt fuel scaler st w :
  prompt fuel w -> well_formed st ->
  exists w1 blk,
    plot_stroke sqrt fuel SerialObj scaler st w = Done tt w1 /\
    prompt fuel w1 /\
    written w1 = written w ++ blk /\
    stroke_block scaler st blk.
Proof.
  intros Hp Hwf. pose proof Hwf as (Hlen & Hy & Ht).
  destruct (item_present (x_coords st) 0) as (x_0 & Ex); [lia |].
  destruct (item_present (y_coords st) 0) as (y_0 & Ey); [lia |].
  destruct (send_prompt fuel (G1_Z PEN_UP 7000) w Hp) as (w1 & E1 & W1 & P1).
  destruct (send_prompt fuel
              (G0_XY (fst (scale scaler x_0 y_0)) (snd (scale scaler x_0 y_0)) 11500)
              w1 P1) as (w2 & E2 & W2 & P2).
  destruct (send_prompt fuel (G1_Z PEN_DOWN 7000) w2 P2) as (w3 & E3 & W3 & P3).
  destruct (segments_prompt sqrt fuel scaler st
              (seq 1 (List.length (x_coords st) - 1)) w3 P3 Hwf)
    as (w4 & feeds & E4 & P4 & W4 & F4 & L4).
  { apply Forall_forall. intros i Hi. apply in_seq in Hi. lia. }
  rewrite length_seq in L4.
  exists w4. eexists. split; [| split; [exact P4 | split]].
  - unfold plot_stroke. rewrite (bind_done _ _ _ _ _ E1).
    unfold item. rewrite Ex, Ey.
    unfold bind at 1. cbn [ret]. unfold bind at 1. cbn [ret].
    cbn [scale fst snd] in E2. cbn [scale].
    rewrite (bind_done _ _ _ _ _ E2), (bind_done _ _ _ _ _ E3).
    exact E4.
  - rewrite W4, W3, W2, W1, <- !app_assoc. cbn [app]. reflexivity.
  - exists x_0, y_0, feeds. repeat split; trivial.
Qed.

(** A well-formed stroke on a transport that answers every command:
    [plot_stroke] returns normally, and what it has written is pen up, the
    rapid move to the first sample scaled, pen down, then feed moves only,
    at most one for each further sample. *)
Theorem well_formed_stroke_is_plotted sqrt fuel scaler st w :
  prompt fuel w -> well_formed st ->
  exists w1 blk,
    plot_stroke sqrt fuel SerialObj scaler st w = Done tt w1 /\
    written w1 = written w ++ blk /\
    stroke_block scaler st blk /\
    prompt fuel w1.
Proof.
  intros Hp Hwf.
  destruct (plot_stroke_prompt sqrt fuel scaler st w Hp Hwf)
    as (w1 & blk & E & P & W & B).
  exists w1, blk. repeat split; assumption.
Qed.

Lemma well_formed_stroke_is_plotted_witness :
  exists w1 blk,
    plot_stroke sqrt_approx 1 SerialObj (mkScaler (1 # 2) 10 10 0 0 1)
      (mkStroke [0; 3; 3] [0; 4; 4] [0; 1000; 2000]) obedient = Done tt w1 /\
    written w1 = blk /\
    stroke_block (mkScaler (1 # 2) 10 10 0 0 1)
      (mkStroke [0; 3; 3] [0; 4; 4] [0; 1000; 2000]) blk.
Proof.
  destruct (well_formed_stroke_is_plotted sqrt_approx 1
              (mkScaler (1 # 2) 10 10 0 0 1)
              (mkStroke [0; 3; 3] [0; 4; 4] [0; 1000; 2000]) obedient)
    as (w1 & blk & E & W & B & _).
  - intros n _. exists 0%nat. split; [lia | reflexivity].
  - repeat split; cbn; lia.
  - exists w1, blk. repeat split; assumption.
Defined.

(** A stroke with two samples or more but at most one timestamp: the first
    segment reads [timestamps[1]] and raises [IndexError].  By then pen up,
    the rapid move and pen down were sent, so the pen is left down. *)
Theorem short_timestamps_raise_index_error sqrt fuel scaler st w :
  prompt fuel w ->
  (2 <= List.length (x_coords st))%nat ->
  y_coords st <> [] ->
  (List.length (timestamps st) <= 1)%nat ->
  exists w1 x_0 y_0,
    plot_stroke sqrt fuel SerialObj scaler st w = Raised IndexError w1 /\
    nth_error (x_coords st) 0 = Some x_0 /\
    nth_error (y_coords st) 0 = Some y_0 /\
    written w1 =
      written w ++
      [Line (G1_Z PEN_UP 7000);
       Line (G0_XY (fst (scale scaler x_0 y_0)) (snd (scale scaler x_0 y_0)) 11500);
       Line (G1_Z PEN_DOWN 7000)].
Proof.
  intros Hp Hx Hy Ht.
  destruct (item_present (x_coords st) 0) as (x_0 & Ex); [lia |].
  destruct (y_coords st) as [|y_0 ys] eqn:Ey; [congruence |].
  destruct (send_prompt fuel (G1_Z PEN_UP 7000) w Hp) as (w1 & E1 & W1 & P1).
  destruct (send_prompt fuel
              (G0_XY (fst (scale scaler x_0 y_0)) (snd (scale scaler x_0 y_0)) 11500)
              w1 P1) as (w2 & E2 & W2 & P2).
  destruct (send_prompt fuel (G1_Z PEN_DOWN 7000) w2 P2) as (w3 & E3 & W3 & P3).
  exists w3, x_0, y_0. split; [| split; [exact Ex | split; [reflexivity |]]].
  - unfold plot_stroke. rewrite (bind_done _ _ _ _ _ E1).
    unfold item at 1 2. rewrite Ex, Ey. cbn [nth_error].
    unfold bind at 1. cbn [ret]. unfold bind at 1. cbn [ret].
    cbn [scale fst snd] in E2. cbn [scale].
    rewrite (bind_done _ _ _ _ _ E2), (bind_done _ _ _ _ _ E3).
    destruct (List.length (x_coords st)) as [|[|n]] eqn:El; [lia | lia |].
    cbn [Nat.sub seq for_each]. unfold bind at 1, segment, bind at 1, item.
    assert (En : nth_error (timestamps st) 1 = None) by (apply nth_error_None; lia).
    rewrite En. reflexivity.
  - rewrite W3, W2, W1, <- !app_assoc. reflexivity.
Qed.

Lemma short_timestamps_raise_index_error_witness :
  exists w1,
    plot_stroke sqrt_approx 1 SerialObj (mkScaler (1 # 2) 10 10 0 0 1)
      (mkStroke [0; 3] [0; 4] [0]) obedient = Raised IndexError w1 /\
    List.length (written w1) = 3%nat.
Proof.
  destruct (short_timestamps_raise_index_error sqrt_approx 1
              (mkScaler (1 # 2) 10 10 0 0 1) (mkStroke [0; 3] [0; 4] [0]) obedient)
    as (w1 & x_0 & y_0 & E & _ & _ & W).
  - intros n _. exists 0%nat. split; [lia | reflexivity].
  - cbn. lia.
  - discriminate.
  - cbn. lia.
  - exists w1. split; [exact E |]. rewrite W. reflexivity.
Defined.

(** ** Whole drawings *)

Lemma prompt_later fuel w w1 :
  inbox w1 = inbox w -> (cursor w <= cursor w1)%nat ->
  prompt fuel w -> prompt fuel w1.
Proof.
  intros Hi Hc Hp n Hn. rewrite Hi. apply Hp. lia.
Qed.

Lemma scaler_init_done lo_x hi_x lo_y hi_y bounds w :
  (lo_x < hi_x \/ lo_y < hi_y)%Q ->
  exists sc w1,
    Scaler_init lo_x hi_x lo_y hi_y bounds w = Done sc w1 /\
    written w1 = written w /\ inbox w1 = inbox w /\ cursor w1 = cursor w.
Proof.
  intros Hpos. unfold Scaler_init, bind at 1, divide.
  destruct (Qeq_bool (py_max (hi_x - lo_x) (hi_y - lo_y)) 0) eqn:EM.
  - apply Qeq_bool_iff in EM. exfalso.
    destruct (py_max_cases (hi_x - lo_x) (hi_y - lo_y)) as [[E H] | [E H]];
      rewrite E in EM; destruct Hpos; lra.
  - do 2 eexists. split; [reflexivity |]. cbn. auto.
Qed.

Lemma strokes_prompt sqrt fuel scaler strokes : forall w,
  prompt fuel w -> Forall well_formed strokes ->
  exists w1 blocks,
    for_each strokes (plot_stroke sqrt fuel SerialObj scaler) w = Done tt w1 /\
    prompt fuel w1 /\
    written w1 = written w ++ List.concat blocks /\
    Forall2 (stroke_block scaler) strokes blocks.
Proof.
  induction strokes as [|st rest IH]; intros w Hp Hwf.
  - exists w, []. cbn [List.concat]. rewrite app_nil_r. repeat split; auto.
  - inversion Hwf as [| ? ? Hst Hrest]; subst.
    destruct (plot_stroke_prompt sqrt fuel scaler st w Hp Hst)
      as (w1 & blk & E1 & P1 & W1 & B1).
    destruct (IH w1 P1 Hrest) as (w2 & blocks & E2 & P2 & W2 & B2).
    exists w2, (blk :: blocks). cbn [for_each List.concat].
    rewrite (bind_done _ _ _ _ _ E1). repeat split; trivial.
    + rewrite W2, W1, app_assoc. reflexivity.
    + constructor; assumption.
Qed.

Lemma spread_range lo hi l :
  range_of lo hi l -> spread l -> (lo < hi)%Q.
Proof.
  intros (F & _ & _) (a & b & Ha & Hb & Hab).
  rewrite Forall_forall in F.
  destruct (F a Ha) as [La _]. destruct (F b Hb) as [_ Hb']. lra.
Qed.

Lemma well_formed_has_samples st : well_formed st -> has_samples st.
Proof.
  intros (Hx & Hy & _). split.
  - destruct (x_coords st); [cbn in Hx; lia | discriminate].
  - destruct (y_coords st); [cbn in Hy; lia | discriminate].
Qed.

Lemma plot_drawing_prompt sqrt fuel d w :
  prompt fuel w ->
  Forall well_formed (drawing d) ->
  spread (all_x (drawing d)) \/ spread (all_y (drawing d)) ->
  exists scaler blocks w1,
    plot_drawing sqrt fuel SerialObj d w = Done tt w1 /\
    written w1 = written w ++ List.concat blocks ++ [Line (G1_Z PEN_UP 7000)] /\
    Forall2 (stroke_block scaler) (drawing d) blocks /\
    prompt fuel w1.
Proof.
  intros Hp Hwf Hspread.
  assert (Hs : Forall has_samples (drawing d)).
  { eapply Forall_impl; [| exact Hwf]. apply well_formed_has_samples. }
  destruct (bounding_box_running (drawing d) [] [] None Hs) as (res & E & Hres);
    [split; reflexivity |].
  destruct res as [[[[lo_x hi_x] lo_y] hi_y] |].
  2:{ destruct Hres as [Hnil _]. rewrite Hnil in Hspread. cbn in Hspread.
      destruct Hspread as [(a & _ & [] & _) | (a & _ & [] & _)]. }
  cbn [app] in Hres. destruct Hres as [Rx Ry].
  assert (Hpos : (lo_x < hi_x \/ lo_y < hi_y)%Q).
  { destruct Hspread as [H | H]; [left | right]; eapply spread_range; eassumption. }
  destruct (scaler_init_done lo_x hi_x lo_y hi_y BOUNDS w Hpos)
    as (scaler & w1 & Esc & W1 & I1 & C1).
  assert (P1 : prompt fuel w1) by (apply (prompt_later fuel w); [assumption | lia | assumption]).
  destruct (strokes_prompt sqrt fuel scaler (drawing d) w1 P1 Hwf)
    as (w2 & blocks & E2 & P2 & W2 & B2).
  destruct (send_prompt fuel (G1_Z PEN_UP 7000) w2 P2) as (w3 & E3 & W3 & P3).
  exists scaler, blocks, w3. split; [| split; [| split; assumption]].
  - unfold plot_drawing. rewrite (bind_done _ _ _ _ _ (E w)). cbv beta iota.
    assert (Ein : bind (Scaler_init lo_x hi_x lo_y hi_y BOUNDS)
                    (fun sc => for_each (drawing d) (plot_stroke sqrt fuel SerialObj sc))
                    w = Done tt w2).
    { rewrite (bind_done _ _ _ _ _ Esc). exact E2. }
    rewrite (bind_done _ _ _ _ _ Ein). exact E3.
  - rewrite W3, W2, W1, <- app_assoc. reflexivity.
Qed.

(** A drawing of well-formed strokes in which two x samples or two y
    samples differ, on a transport that answers every command:
    [plot_drawing] returns normally.  With one scaler for the whole drawing
    it has written one block per stroke, in the order of the strokes, each of
    the form pen up, rapid move, pen down, feed moves, and one final pen
    up. *)
Theorem well_formed_drawing_is_plotted sqrt fuel d w :
  prompt fuel w ->
  Forall well_formed (drawing d) ->
  spread (all_x (drawing d)) \/ spread (all_y (drawing d)) ->
  exists scaler blocks w1,
    plot_drawing sqrt fuel SerialObj d w = Done tt w1 /\
    written w1 = written w ++ List.concat blocks ++ [Line (G1_Z PEN_UP 7000)] /\
    Forall2 (stroke_block scaler) (drawing d) blocks /\
    prompt fuel w1.
Proof. apply plot_drawing_prompt. Qed.

Lemma well_formed_drawing_is_plotted_witness :
  exists scaler blocks w1,
    plot_drawing sqrt_approx 1 SerialObj two_points obedient = Done tt w1 /\
    written w1 = List.concat blocks ++ [Line (G1_Z PEN_UP 7000)] /\
    Forall2 (stroke_block scaler) (drawing two_points) blocks.
Proof.
  destruct (well_formed_drawing_is_plotted sqrt_approx 1 two_points obedient)
    as (scaler & blocks & w1 & E & W & B & _).
  - intros n _. exists 0%nat. split; [lia | reflexivity].
  - repeat constructor.
  - left. exists 0%Q, 10%Q. cbn. repeat split; auto.
  - exists scaler, blocks, w1. repeat split; assumption.
Defined.

(** A drawing without strokes on a transport that answers: [plot_drawing]
    raises nothing and sends the final pen up only. *)
Theorem drawing_without_strokes_lifts_pen sqrt fuel name w :
  prompt fuel w ->
  exists w1,
    plot_drawing sqrt fuel SerialObj (mkDrawing name []) w = Done tt w1 /\
    written w1 = written w ++ [Line (G1_Z PEN_UP 7000)].
Proof.
  intros Hp.
  set (w0 := mkWorld (written w) (log w) (sleeps w) (inbox w) (cursor w)
                     (pending w) (rand w) (S (S (S (rand_pos w))))).
  assert (P0 : prompt fuel w0) by exact Hp.
  destruct (send_prompt fuel (G1_Z PEN_UP 7000) w0 P0) as (w1 & E & W & _).
  exists w1. split; [exact E | exact W].
Qed.

Lemma drawing_without_strokes_lifts_pen_witness :
  exists w1,
    plot_drawing sqrt_approx 1 SerialObj (mkDrawing "blank" []) obedient = Done tt w1 /\
    written w1 = [Line (G1_Z PEN_UP 7000)].
Proof.
  destruct (drawing_without_strokes_lifts_pen sqrt_approx 1 "blank" obedient)
    as (w1 & E & W).
  - intros n _. exists 0%nat. split; [lia | reflexivity].
  - exists w1. split; [exact E | exact W].
Defined.

(** ** What [plot_drawing] never writes *)

Lemma clamped_positive v :
  (0 < v)%Q -> (0 < py_min (v * SPEED_MULTIPLIER) 11500 <= 11500)%Q.
Proof.
  intros Hv. split; [| apply clamped_within_max].
  destruct (py_min_cases (v * SPEED_MULTIPLIER) 11500) as [[-> _] | [-> _]].
  - unfold SPEED_MULTIPLIER. lra.
  - reflexivity.
Qed.

Lemma motion_segment sqrt fuel s scaler st i :
  emits motion_command (segment sqrt fuel s scaler st i).
Proof.
  unfold segment. emits_steps.
  destruct (Qle_bool _ 0); [apply emits_ret |].
  emits_steps. cbv zeta.
  match goal with |- context [Qle_bool ?v 0] => destruct (Qle_bool v 0) eqn:E end;
    [apply emits_ret |].
  apply emits_send. cbn [motion_command]. apply clamped_positive.
  apply Qnot_le_lt. intros H. apply Qle_bool_iff in H. congruence.
Qed.

Lemma motion_pen_up : motion_command (Line (G1_Z PEN_UP 7000)).
Proof. split; [left |]; reflexivity. Qed.

Lemma motion_pen_down : motion_command (Line (G1_Z PEN_DOWN 7000)).
Proof. split; [right |]; reflexivity. Qed.

Lemma motion_stroke sqrt fuel s scaler st :
  emits motion_command (plot_stroke sqrt fuel s scaler st).
Proof.
  unfold plot_stroke.
  apply emits_bind; [apply emits_send, motion_pen_up | intros _].
  apply emits_bind; [apply emits_item | intros x_0].
  apply emits_bind; [apply emits_item | intros y_0].
  cbn [scale].
  apply emits_bind; [apply emits_send; reflexivity | intros _].
  apply emits_bind; [apply emits_send, motion_pen_down | intros _].
  apply emits_for_each. intros i. apply motion_segment.
Qed.

(** Whatever the drawing, the transport and the outcome, [plot_drawing]
    writes nothing but motion commands: pen moves to height 0 or -8 at feed
    7000, rapid moves at 11500, and feed moves whose rate is positive and at
    most 11500.  It never writes a setup line or raw bytes. *)
Theorem plot_drawing_writes_motion_commands_only sqrt fuel s d w :
  exists new,
    written (world_of (plot_drawing sqrt fuel s d w)) = written w ++ new /\
    Forall motion_command new.
Proof.
  revert w. change (emits motion_command (plot_drawing sqrt fuel s d)).
  unfold plot_drawing.
  apply emits_bind; [apply emits_bounding_box | intros extremes].
  apply emits_bind; [| intros _; apply emits_send, motion_pen_up].
  destruct extremes as [[[[lo_x hi_x] lo_y] hi_y] |].
  - apply emits_bind; [apply emits_Scaler_init | intros scaler].
    apply emits_for_each. intros st. apply motion_stroke.
  - emits_steps.
Qed.

(** ** The source of drawings *)

Lemma plot_lines_past_limit sqrt fuel s limit : forall lines count w,
  (limit <= count)%Z ->
  plot_lines sqrt fuel s lines limit count w = Done tt w.
Proof.
  intros lines count w Hle. destruct lines as [|line rest]; [reflexivity |].
  cbn [plot_lines].
  assert (Elt : (count <? limit)%Z = false) by (apply Z.ltb_ge; lia).
  assert (Ege : (count >=? limit)%Z = true) by (rewrite Z.geb_leb; apply Z.leb_le; lia).
  rewrite Elt, Ege. destruct line; reflexivity.
Qed.

Lemma records_of_records ds : records (map Some ds) = ds.
Proof.
  induction ds as [|d ds IH]; [reflexivity |].
  cbn [map records flat_map app]. fold (records (map Some ds)).
  rewrite IH. reflexivity.
Qed.

Lemma plot_lines_any sqrt fuel s limit lines count w :
  plot_lines sqrt fuel s lines limit count w =
  plot_in_order sqrt fuel s
    (firstn (Z.to_nat (limit - count)) (records lines)) count w.
Proof.
  destruct (Z_le_gt_dec count limit) as [Hle | Hgt].
  - apply plot_lines_in_order. exact Hle.
  - rewrite plot_lines_past_limit by lia.
    replace (Z.to_nat (limit - count)) with 0%nat by lia. reflexivity.
Qed.

(** Empty lines of the stream do not count and change nothing: whatever the
    limit, [stream_and_plot] behaves on a stream as on the same stream with
    its empty lines removed. *)
Theorem empty_lines_are_skipped sqrt fuel s lines limit w :
  stream_and_plot sqrt fuel s (ResponseOk lines) limit w =
  stream_and_plot sqrt fuel s (ResponseOk (map Some (records lines))) limit w.
Proof.
  cbn [stream_and_plot]. rewrite !plot_lines_any, records_of_records.
  reflexivity.
Qed.

(** With a limit of zero or less, [stream_and_plot] plots nothing: it
    returns at once, and nothing is written, printed or read. *)
Theorem nonpositive_limit_plots_nothing sqrt fuel s lines limit w :
  (limit <= 0)%Z ->
  stream_and_plot sqrt fuel s (ResponseOk lines) limit w = Done tt w.
Proof.
  intros H. cbn [stream_and_plot]. apply plot_lines_past_limit. exact H.
Qed.

Lemma nonpositive_limit_plots_nothing_witness :
  stream_and_plot sqrt_approx 1 SerialObj
    (ResponseOk [Some two_points; None; Some single_point]) 0 obedient =
  Done tt obedient.
Proof.
  apply (nonpositive_limit_plots_nothing sqrt_approx 1 SerialObj
           [Some two_points; None; Some single_point] 0 obedient).
  lia.
Defined.

(** ** [main] on an open serial port *)

Lemma send_answered fuel cmd w :
  prompt fuel w ->
  exists w1,
    send fuel SerialObj cmd w = Done tt w1 /\
    written w1 = written w ++ [Line cmd] /\
    sleeps w1 = sleeps w /\
    prompt fuel w1.
Proof.
  intros Hp. destruct (Hp (cursor w) (Nat.le_refl _)) as (k & Hk & Htok).
  destruct (wait_reply_done k fuel (announced cmd w) Hk Htok)
    as (w1 & E & Hw & Hi & Hc & Hs).
  exists w1. rewrite send_serial. repeat split; trivial.
  apply (prompt_later fuel w); [exact Hi | cbn in Hc; lia | exact Hp].
Qed.

Lemma moved_trans w w1 w2 a b s t :
  moved w w1 a s -> moved w1 w2 b t -> moved w w2 (a ++ b) (s ++ t).
Proof.
  intros (W1 & S1 & I1 & C1) (W2 & S2 & I2 & C2). repeat split.
  - rewrite W2, W1, app_assoc. reflexivity.
  - rewrite S2, S1, app_assoc. reflexivity.
  - congruence.
  - lia.
Qed.

Lemma sleep_moved q w : exists w1, sleep q w = Done tt w1 /\ moved w w1 [] [q].
Proof.
  eexists. split; [reflexivity |]. repeat split; cbn; rewrite ?app_nil_r; auto.
Qed.

Lemma print_moved p w : exists w1, print p w = Done tt w1 /\ moved w w1 [] [].
Proof.
  eexists. split; [reflexivity |]. repeat split; cbn; rewrite ?app_nil_r; auto.
Qed.

Lemma put_moved data w : exists w1, put data w = Done tt w1 /\ moved w w1 [data] [].
Proof.
  eexists. split; [reflexivity |]. repeat split; cbn; rewrite ?app_nil_r; auto.
Qed.

Lemma reset_input_buffer_moved w :
  exists w1, reset_input_buffer w = Done tt w1 /\ moved w w1 [] [].
Proof.
  eexists. split; [reflexivity |]. repeat split; cbn; rewrite ?app_nil_r; auto.
  lia.
Qed.

Lemma reset_plotter_moved w :
  exists w1, reset_plotter SerialObj w = Done tt w1 /\ moved w w1 reset_bytes [2; 1]%Q.
Proof.
  unfold reset_plotter. cbn [write].
  destruct (print_moved (PrText "Sending reset and unlock...") w) as (w1 & E1 & M1).
  destruct (put_moved (Bytes (String (ascii_of_nat 24) EmptyString)) w1)
    as (w2 & E2 & M2).
  destruct (sleep_moved 2 w2) as (w3 & E3 & M3).
  destruct (put_moved
              (Bytes (String "$" (String "X" (String (ascii_of_nat 10) EmptyString))))
              w3) as (w4 & E4 & M4).
  destruct (sleep_moved 1 w4) as (w5 & E5 & M5).
  destruct (reset_input_buffer_moved w5) as (w6 & E6 & M6).
  destruct (print_moved (PrText "Plotter unlocked.") w6) as (w7 & E7 & M7).
  exists w7. split.
  - rewrite (bind_done _ _ _ _ _ E1), (bind_done _ _ _ _ _ E2),
      (bind_done _ _ _ _ _ E3), (bind_done _ _ _ _ _ E4),
      (bind_done _ _ _ _ _ E5), (bind_done _ _ _ _ _ E6).
    exact E7.
  - pose proof (moved_trans _ _ _ _ _ _ _ M1
                 (moved_trans _ _ _ _ _ _ _ M2
                   (moved_trans _ _ _ _ _ _ _ M3
                     (moved_trans _ _ _ _ _ _ _ M4
                       (moved_trans _ _ _ _ _ _ _ M5
                         (moved_trans _ _ _ _ _ _ _ M6 M7)))))) as M.
    exact M.
Qed.

(** The first lines of [main] when the serial port opens. *)
Lemma opening_moved w :
  exists w0,
    bind (sleep 2) (fun _ => bind (reset_plotter SerialObj) (fun _ => ret SerialObj)) w
      = Done SerialObj w0 /\
    moved w w0 reset_bytes [2; 2; 1]%Q.
Proof.
  destruct (sleep_moved 2 w) as (w1 & E1 & M1).
  destruct (reset_plotter_moved w1) as (w2 & E2 & M2).
  exists w2. split.
  - rewrite (bind_done _ _ _ _ _ E1), (bind_done _ _ _ _ _ E2). reflexivity.
  - exact (moved_trans _ _ _ _ _ _ _ M1 M2).
Qed.

(** [main] up to the request for the drawings: the reset, then the seven
    setup lines, each acknowledged. *)
Lemma main_until_stream sqrt fuel r w :
  prompt fuel w ->
  exists w7,
    prompt fuel w7 /\
    written w7 = written w ++ reset_bytes ++ setup_lines /\
    sleeps w7 = sleeps w ++ [2; 2; 1]%Q /\
    main sqrt fuel true r w =
      bind (stream_and_plot sqrt fuel SerialObj r 1)
        (fun _ => bind (send fuel SerialObj (G1_Z PEN_UP 7000))
           (fun _ => bind (send fuel SerialObj (Fixed "G0 X0 Y0"))
              (fun _ => close SerialObj))) w7.
Proof.
  intros Hp.
  destruct (opening_moved w) as (w0 & E0 & W0 & S0 & I0 & C0).
  assert (P0 : prompt fuel w0) by (apply (prompt_later fuel w); assumption).
  destruct (send_answered fuel (Fixed "G21") w0 P0) as (w1 & E1 & W1 & S1 & P1).
  destruct (send_answered fuel (Fixed "G90") w1 P1) as (w2 & E2 & W2 & S2 & P2).
  destruct (send_answered fuel (Fixed "$32=0") w2 P2) as (w3 & E3 & W3 & S3 & P3).
  destruct (send_answered fuel (Fixed "$20=0") w3 P3) as (w4 & E4 & W4 & S4 & P4).
  destruct (send_answered fuel (Fixed "$130=600") w4 P4) as (w5 & E5 & W5 & S5 & P5).
  destruct (send_answered fuel (Fixed "$131=600") w5 P5) as (w6 & E6 & W6 & S6 & P6).
  destruct (send_answered fuel (Fixed "G10 L20 P1 X0 Y0 Z0") w6 P6)
    as (w7 & E7 & W7 & S7 & P7).
  exists w7. split; [exact P7 |]. split; [| split].
  - rewrite W7, W6, W5, W4, W3, W2, W1, W0, <- !app_assoc. reflexivity.
  - congruence.
  - unfold main. cbv iota.
    rewrite (bind_done _ _ _ _ _ E0).
    rewrite (bind_done _ _ _ _ _ E1), (bind_done _ _ _ _ _ E2),
      (bind_done _ _ _ _ _ E3), (bind_done _ _ _ _ _ E4),
      (bind_done _ _ _ _ _ E5), (bind_done _ _ _ _ _ E6),
      (bind_done _ _ _ _ _ E7).
    reflexivity.
Qed.

(** When the serial port is open and the plotter answers, but the dataset
    server times out or refuses, [main] ends with [SystemExit] after the
    reset and the seven setup lines: the final pen up and the return to the
    origin are never sent. *)
Theorem main_exits_when_download_fails sqrt fuel r w :
  prompt fuel w ->
  r = ResponseTimeout \/ r = ResponseError ->
  exists w1,
    main sqrt fuel true r w = Raised SystemExit w1 /\
    written w1 = written w ++ reset_bytes ++ setup_lines /\
    sleeps w1 = sleeps w ++ [2; 2; 1]%Q.
Proof.
  intros Hp Hr.
  destruct (main_until_stream sqrt fuel r w Hp) as (w7 & _ & W & S & E).
  exists w7. split; [| split; assumption].
  rewrite E. destruct Hr as [-> | ->]; reflexivity.
Qed.

Lemma main_exits_when_download_fails_witness :
  exists w1,
    main sqrt_approx 1 true ResponseTimeout obedient = Raised SystemExit w1 /\
    written w1 = reset_bytes ++ setup_lines.
Proof.
  destruct (main_exits_when_download_fails sqrt_approx 1 ResponseTimeout obedient)
    as (w1 & E & W & _).
  - intros n _. exists 0%nat. split; [lia | reflexivity].
  - left. reflexivity.
  - exists w1. split; [exact E | exact W].
Defined.

(** When the serial port is open, the plotter answers every command and the
    first record of the stream is a well-formed drawing with two different
    x samples or two different y samples, [main] runs to its end.  It has
    written, in this order: the reset, the seven setup lines, the blocks of
    that one drawing, the pen up that ends the drawing, and the final pen up
    and return to the origin.  Later records are not plotted. *)
Theorem main_plots_the_first_drawing sqrt fuel lines d rest w :
  prompt fuel w ->
  records lines = d :: rest ->
  Forall well_formed (drawing d) ->
  spread (all_x (drawing d)) \/ spread (all_y (drawing d)) ->
  exists scaler blocks w1,
    main sqrt fuel true (ResponseOk lines) w = Done tt w1 /\
    written w1 =
      written w ++ reset_bytes ++ setup_lines ++ List.concat blocks ++
      [Line (G1_Z PEN_UP 7000); Line (G1_Z PEN_UP 7000); Line (Fixed "G0 X0 Y0")] /\
    Forall2 (stroke_block scaler) (drawing d) blocks.
Proof.
  intros Hp Hrec Hwf Hspread.
  destruct (main_until_stream sqrt fuel (ResponseOk lines) w Hp)
    as (w7 & P7 & W7 & _ & E).
  set (w8 := mkWorld (written w7) (log w7 ++ [PrStarting (0 + 1) (word d)])
                     (sleeps w7) (inbox w7) (cursor w7) (pending w7)
                     (rand w7) (rand_pos w7)).
  assert (P8 : prompt fuel w8) by exact P7.
  destruct (plot_drawing_prompt sqrt fuel d w8 P8 Hwf Hspread)
    as (scaler & blocks & w9 & E9 & W9 & B & P9).
  destruct (send_answered fuel (G1_Z PEN_UP 7000) w9 P9) as (w10 & E10 & W10 & _ & P10).
  destruct (send_answered fuel (Fixed "G0 X0 Y0") w10 P10) as (w11 & E11 & W11 & _ & _).
  exists scaler, blocks, w11. split; [| split; [| exact B]].
  - rewrite E.
    assert (Es : stream_and_plot sqrt fuel SerialObj (ResponseOk lines) 1 w7 = Done tt w9).
    { cbn [stream_and_plot]. rewrite plot_lines_any, Hrec.
      change (Z.to_nat (1 - 0)) with 1%nat. cbn [firstn plot_in_order].
      assert (Ep : print (PrStarting (0 + 1) (word d)) w7 = Done tt w8)
        by reflexivity.
      rewrite (bind_done _ _ _ _ _ Ep), (bind_done _ _ _ _ _ E9). reflexivity. }
    rewrite (bind_done _ _ _ _ _ Es), (bind_done _ _ _ _ _ E10),
      (bind_done _ _ _ _ _ E11).
    reflexivity.
  - rewrite W11, W10, W9. cbn [w8 written]. rewrite W7, <- !app_assoc.
    reflexivity.
Qed.

Lemma main_plots_the_first_drawing_witness :
  exists scaler blocks w1,
    main sqrt_approx 1 true (ResponseOk [None; Some two_points; Some single_point])
      obedient = Done tt w1 /\
    Forall2 (stroke_block scaler) (drawing two_points) blocks.
Proof.
  destruct (main_plots_the_first_drawing sqrt_approx 1
              [None; Some two_points; Some single_point] two_points [single_point]
              obedient) as (scaler & blocks & w1 & E & _ & B).
  - intros n _. exists 0%nat. split; [lia | reflexivity].
  - reflexivity.
  - repeat constructor.
  - left. exists 0%Q, 10%Q. cbn. repeat split; auto.
  - exists scaler, blocks, w1. split; [exact E | exact B].
Defined.

(** ** [get_ndjson] *)

Lemma append_length_sum s : forall t,
  String.length (s ++ t)%string = (String.length s + String.length t)%nat.
Proof.
  induction s as [|c s IH]; intros t; cbn; [reflexivity |].
  rewrite IH. reflexivity.
Qed.

Lemma append_same_prefix a : forall s t, (a ++ s = a ++ t)%string -> s = t.
Proof.
  induction a as [|c a IH]; cbn; intros s t H; [exact H |].
  injection H as H. apply IH. exact H.
Qed.

Lemma append_same_suffix c : forall s t, (s ++ c = t ++ c)%string -> s = t.
Proof.
  induction s as [|x s IH]; intros [|y t] H; cbn in H.
  - reflexivity.
  - apply (f_equal String.length) in H. cbn in H.
    rewrite append_length_sum in H. lia.
  - apply (f_equal String.length) in H. cbn in H.
    rewrite append_length_sum in H. lia.
  - injection H as -> H. f_equal. apply IH. exact H.
Qed.

(** [get_ndjson] puts the name between the dataset address and ".ndjson"
    as it is, without escaping anything, so two names give the same
    address only when they are the same name, and the address is as much
    longer than the name as the two fixed parts are long. *)
Theorem get_ndjson_is_injective a b :
  (get_ndjson a = get_ndjson b -> a = b) /\
  String.length (get_ndjson a) = (String.length a + 65)%nat.
Proof.
  unfold get_ndjson. split.
  - intros H. apply append_same_suffix in H. apply append_same_prefix in H.
    exact H.
  - rewrite !append_length_sum. cbn. lia.
Qed.

(** When the serial port opens but the plotter never sends a line with
    "ok", "error" or "alarm", [main] does not get past its first command:
    whatever the fuel, it is still waiting for the reply to "G21", and the
    reset and that one line are all it has written. *)
Theorem main_waits_on_a_silent_plotter sqrt fuel r w :
  (forall n, Text.has_token (Text.strip (inbox w n)) = false) ->
  exists w1,
    main sqrt fuel true r w = OutOfFuel w1 /\
    written w1 = written w ++ reset_bytes ++ [Line (Fixed "G21")].
Proof.
  intros Hsilent.
  destruct (opening_moved w) as (w0 & E0 & W0 & _ & I0 & _).
  destruct (wait_reply_starved fuel (announced (Fixed "G21") w0)) as (w1 & E1).
  { intros k _. unfold reply_at. cbn [announced inbox cursor].
    rewrite I0. apply Hsilent. }
  exists w1. split.
  - unfold main. cbv iota. rewrite (bind_done _ _ _ _ _ E0).
    unfold bind at 1. rewrite send_serial, E1. reflexivity.
  - pose proof (wait_reply_keeps_written fuel (announced (Fixed "G21") w0)) as K.
    rewrite E1 in K. cbn [world_of announced written] in K.
    rewrite K, W0, <- app_assoc. reflexivity.
Qed.

Lemma main_waits_on_a_silent_plotter_witness :
  exists w1,
    main sqrt_approx 5 true (ResponseOk [Some two_points]) unresponsive = OutOfFuel w1 /\
    written w1 = reset_bytes ++ [Line (Fixed "G21")].
Proof.
  destruct (main_waits_on_a_silent_plotter sqrt_approx 5
              (ResponseOk [Some two_points]) unresponsive) as (w1 & E & W).
  - intros n. cbn [unresponsive fresh inbox].
    destruct (Nat.even n); reflexivity.
  - exists w1. split; [exact E | exact W].
Defined.

(** * The placement, the driver and the faults *)

(** C5.  Take a box with positive extent on one axis at least, a point of
    the box, a square of side [bounds >= 0] and three values of [random()]
    in the unit interval.  Then [Scaler] is built, its draws are in their
    ranges (the inner scale between 1/4 and 3/4, each offset between 0 and
    [bounds] minus the final width or height), and both coordinates that
    [scale] returns for the point are, in absolute value, between the margin
    5 and [bounds + 5]. *)
Theorem scale_stays_in_square lo_x hi_x lo_y hi_y bounds w x y :
  (lo_x <= x <= hi_x)%Q ->
  (lo_y <= y <= hi_y)%Q ->
  (lo_x < hi_x \/ lo_y < hi_y)%Q ->
  (0 <= bounds)%Q ->
  (forall i, (i < 3)%nat -> 0 <= rand w (rand_pos w + i) <= 1)%Q ->
  exists sc w1,
    Scaler_init lo_x hi_x lo_y hi_y bounds w = Done sc w1 /\
    (1 # 4 <= smaller_scale sc <= 3 # 4)%Q /\
    (0 <= offset_x sc <= bounds - (hi_x - lo_x) * multiplier sc)%Q /\
    (0 <= offset_y sc <= bounds - (hi_y - lo_y) * multiplier sc)%Q /\
    (5 <= Qabs (fst (scale sc x y)) <= bounds + 5)%Q /\
    (5 <= Qabs (snd (scale sc x y)) <= bounds + 5)%Q.
Proof.
  intros Hx Hy Hpos Hb Hr.
  destruct (scaler_init_in_square lo_x hi_x lo_y hi_y bounds w)
    as (sc & w1 & E & Hs & Hox & Hoy & H); try assumption.
  - destruct Hx. lra.
  - destruct Hy. lra.
  - exists sc, w1. destruct (H x y Hx Hy) as [[Hx0 Hx1] [Hy0 Hy1]].
    repeat (split; [assumption |]). split.
    + rewrite Qabs_pos by lra. split; assumption.
    + rewrite Qabs_neg by lra. split; lra.
Qed.

Lemma scale_stays_in_square_witness :
  exists sc w1,
    Scaler_init 0 10 0 10 250 obedient = Done sc w1 /\
    (5 <= Qabs (fst (scale sc 3 4)) <= 250 + 5)%Q /\
    (5 <= Qabs (snd (scale sc 3 4)) <= 250 + 5)%Q.
Proof.
  destruct (scale_stays_in_square 0 10 0 10 250 obedient 3 4)
    as (sc & w1 & E & _ & _ & _ & Hx & Hy).
  - split; vm_compute; discriminate.
  - split; vm_compute; discriminate.
  - left. vm_compute. reflexivity.
  - vm_compute. discriminate.
  - intros i _. split; vm_compute; discriminate.
  - exists sc, w1. repeat split; try exact E; apply Hx || apply Hy.
Defined.

(** ** What a run reads and prints *)

Lemma logs_still {A} P (m : M A) :
  (forall w, inbox (world_of (m w)) = inbox w /\
             cursor (world_of (m w)) = cursor w /\
             log (world_of (m w)) = log w) ->
  logs P m.
Proof.
  intros H w. destruct (H w) as (Hi & Hc & Hl).
  split; [exact Hi |]. split; [lia |]. split.
  - exists []. rewrite app_nil_r. split; [exact Hl | constructor].
  - intros n Hn. lia.
Qed.

Lemma logs_bind {A B} P (m : M A) (k : A -> M B) :
  logs P m -> (forall a, logs P (k a)) -> logs P (bind m k).
Proof.
  intros Hm Hk w. unfold bind.
  destruct (Hm w) as (Hi & Hc & (new & Hl & HP) & Hf).
  destruct (m w) as [a w1 | e w1 | w1]; cbn [world_of] in *.
  - destruct (Hk a w1) as (Hi' & Hc' & (new' & Hl' & HP') & Hf').
    split; [congruence |]. split; [lia |]. split.
    + exists (new ++ new'). rewrite Hl', Hl, app_assoc.
      split; [reflexivity | apply Forall_app; split; assumption].
    + intros n Hn Hfo. destruct (Nat.lt_ge_cases n (cursor w1)) as [Hlt | Hge].
      * rewrite Hl'. apply in_or_app. left. apply Hf; [lia | exact Hfo].
      * rewrite <- Hi. apply Hf'; [lia | rewrite Hi; exact Hfo].
  - split; [exact Hi |]. split; [exact Hc |]. split; [| exact Hf].
    exists new. split; assumption.
  - split; [exact Hi |]. split; [exact Hc |]. split; [| exact Hf].
    exists new. split; assumption.
Qed.

Lemma logs_ret {A} P (a : A) : logs P (ret a).
Proof. apply logs_still. intros w. repeat split. Qed.

Lemma logs_raise {A} P e : logs P (@raise A e).
Proof. apply logs_still. intros w. repeat split. Qed.

Lemma logs_random P : logs P random.
Proof. apply logs_still. intros w. repeat split. Qed.

Lemma logs_put P data : logs P (put data).
Proof. apply logs_still. intros w. repeat split. Qed.

Lemma logs_item P l i : logs P (item l i).
Proof.
  apply logs_still. intros w. unfold item.
  destruct (nth_error l i); repeat split.
Qed.

Lemma logs_seq_min P l : logs P (seq_min l).
Proof. apply logs_still. intros w. destruct l; repeat split. Qed.

Lemma logs_seq_max P l : logs P (seq_max l).
Proof. apply logs_still. intros w. destruct l; repeat split. Qed.

Lemma logs_divide P a b : logs P (divide a b).
Proof.
  apply logs_still. intros w. unfold divide.
  destruct (Qeq_bool b 0); repeat split.
Qed.

Lemma logs_print (P : printed -> Prop) p : P p -> logs P (print p).
Proof.
  intros HP w. cbn [print world_of inbox cursor log].
  split; [reflexivity |]. split; [lia |]. split.
  - exists [p]. split; [reflexivity | repeat constructor; exact HP].
  - intros n Hn. lia.
Qed.

Lemma logs_for_each {A} P (body : A -> M unit) l :
  (forall a, logs P (body a)) -> logs P (for_each l body).
Proof.
  intros H. induction l as [|a l IH]; cbn [for_each].
  - apply logs_ret.
  - apply logs_bind; [apply H | intros _; exact IH].
Qed.

Lemma logs_bounding_box P strokes : forall acc, logs P (bounding_box strokes acc).
Proof.
  induction strokes as [|st rest IH]; intros acc; cbn [bounding_box].
  - apply logs_ret.
  - apply logs_bind; [apply logs_seq_min | intros lo_x].
    apply logs_bind; [apply logs_seq_max | intros hi_x].
    apply logs_bind; [apply logs_seq_min | intros lo_y].
    apply logs_bind; [apply logs_seq_max | intros hi_y].
    apply IH.
Qed.

Lemma logs_Scaler_init P a b c d bounds : logs P (Scaler_init a b c d bounds).
Proof.
  unfold Scaler_init, uniform.
  apply logs_bind; [apply logs_divide | intros master_scale].
  apply logs_bind;
    [apply logs_bind; [apply logs_random | intros u; apply logs_ret] | intros smaller].
  apply logs_bind;
    [apply logs_bind; [apply logs_random | intros u; apply logs_ret] | intros off_x].
  apply logs_bind;
    [apply logs_bind; [apply logs_random | intros u; apply logs_ret] | intros off_y].
  apply logs_ret.
Qed.

(** One turn of the wait on a line without token, with what it prints. *)
Lemma wait_reply_skip_log fuel w :
  Text.has_token (reply_at w 0) = false ->
  exists w1 new,
    wait_reply (S fuel) SerialObj w = wait_reply fuel SerialObj w1 /\
    inbox w1 = inbox w /\ cursor w1 = S (cursor w) /\
    log w1 = log w ++ new /\
    (new = [] \/ new = [PrReply (reply_at w 0)]).
Proof.
  unfold reply_at, Text.has_token. rewrite Nat.add_0_r. intros H.
  apply orb_false_iff in H. destruct H as [Hok Hfault].
  cbn [wait_reply]. unfold bind at 1. cbn [readline].
  destruct (Text.is_empty (Text.strip (inbox w (cursor w)))) eqn:E.
  - eexists. exists []. split.
    + unfold bind, ret. rewrite Hok, Hfault. reflexivity.
    + cbn. rewrite app_nil_r. auto.
  - eexists. exists [PrReply (Text.strip (inbox w (cursor w)))]. split.
    + unfold bind, print. rewrite Hok, Hfault. reflexivity.
    + cbn. auto.
Qed.

Section Logs.

(** The entries [send] may print are allowed. *)
Variable P : printed -> Prop.
Hypothesis P_command : forall c, P (PrCommand c).
Hypothesis P_reply : forall line, P (PrReply line).
Hypothesis P_error : forall line, P (PrMachineError line).

Lemma logs_wait_reply fuel : logs P (wait_reply fuel SerialObj).
Proof.
  induction fuel as [|fuel IH]; intros w.
  - cbn [wait_reply world_of]. split; [reflexivity |]. split; [lia |]. split.
    + exists []. rewrite app_nil_r. split; [reflexivity | constructor].
    + intros n Hn. lia.
  - destruct (Text.has_token (reply_at w 0)) eqn:T.
    + destruct (wait_reply_stop fuel w T) as (w1 & E & _ & Hi & Hc & _ & Hl).
      rewrite E. cbn [world_of].
      split; [exact Hi |]. split; [lia |]. split.
      * eexists. split; [exact Hl |].
        constructor; [apply P_reply |].
        destruct (Text.has_ok (reply_at w 0)); repeat constructor. apply P_error.
      * intros n Hn [Hfault Hok]. assert (n = cursor w) by lia. subst n.
        unfold reply_at in Hl. rewrite Nat.add_0_r in Hl. rewrite Hok in Hl.
        rewrite Hl. apply in_or_app. right. right. left. reflexivity.
    + destruct (wait_reply_skip_log fuel w T) as (w1 & new & E & Hi & Hc & Hl & Hnew).
      rewrite E.
      destruct (IH w1) as (Hi' & Hc' & (new' & Hl' & HP') & Hf').
      split; [congruence |]. split; [lia |]. split.
      * exists (new ++ new'). rewrite Hl', Hl, app_assoc. split; [reflexivity |].
        apply Forall_app. split; [| exact HP'].
        destruct Hnew as [-> | ->]; repeat constructor. apply P_reply.
      * intros n Hn [Hfault Hok].
        destruct (Nat.eq_dec n (cursor w)) as [-> | Hne].
        -- exfalso. unfold Text.has_token, reply_at in T.
           rewrite Nat.add_0_r, Hfault, orb_true_r in T. discriminate.
        -- rewrite <- Hi. apply Hf'; [lia |]. rewrite Hi. split; assumption.
Qed.

Lemma logs_send fuel cmd : logs P (send fuel SerialObj cmd).
Proof.
  unfold send. cbn [is_not_MockSerialPort write].
  apply logs_bind; [apply logs_print, P_command | intros _].
  apply logs_bind; [apply logs_put | intros _].
  apply logs_wait_reply.
Qed.

Lemma logs_segment sqrt fuel scaler st i :
  logs P (segment sqrt fuel SerialObj scaler st i).
Proof.
  unfold segment.
  apply logs_bind; [apply logs_item | intros t_i].
  apply logs_bind; [apply logs_item | intros t_prior].
  destruct (Qle_bool _ 0); [apply logs_ret |].
  apply logs_bind; [apply logs_item | intros x_i].
  apply logs_bind; [apply logs_item | intros y_i].
  apply logs_bind; [apply logs_item | intros x_p].
  apply logs_bind; [apply logs_item | intros y_p].
  cbv zeta. destruct (Qle_bool _ 0); [apply logs_ret | apply logs_send].
Qed.

Lemma logs_plot_stroke sqrt fuel scaler st :
  logs P (plot_stroke sqrt fuel SerialObj scaler st).
Proof.
  unfold plot_stroke.
  apply logs_bind; [apply logs_send | intros _].
  apply logs_bind; [apply logs_item | intros x_0].
  apply logs_bind; [apply logs_item | intros y_0].
  cbn [scale].
  apply logs_bind; [apply logs_send | intros _].
  apply logs_bind; [apply logs_send | intros _].
  apply logs_for_each. intros i. apply logs_segment.
Qed.

(** What [plot_drawing] does between the extremes and the last pen up. *)
Lemma logs_strokes sqrt fuel strokes (extremes : option box) :
  logs P (match extremes with
          | None => bind random (fun _ => bind random (fun _ =>
                      bind random (fun _ => ret tt)))
          | Some (lo_x, hi_x, lo_y, hi_y) =>
              bind (Scaler_init lo_x hi_x lo_y hi_y BOUNDS)
                (fun scaler => for_each strokes (plot_stroke sqrt fuel SerialObj scaler))
          end).
Proof.
  destruct extremes as [[[[lo_x hi_x] lo_y] hi_y] |].
  - apply logs_bind; [apply logs_Scaler_init | intros scaler].
    apply logs_for_each. intros st. apply logs_plot_stroke.
  - repeat (apply logs_bind; [apply logs_random | intros _]). apply logs_ret.
Qed.

Lemma logs_plot_drawing sqrt fuel d :
  logs P (plot_drawing sqrt fuel SerialObj d).
Proof.
  unfold plot_drawing.
  apply logs_bind; [apply logs_bounding_box | intros extremes].
  apply logs_bind; [apply logs_strokes | intros _; apply logs_send].
Qed.

End Logs.


(** ** Every command returned from was answered *)

Lemma bind_inv {A B} (m : M A) (k : A -> M B) w b w2 :
  bind m k w = Done b w2 ->
  exists a w1, m w = Done a w1 /\ k a w1 = Done b w2.
Proof.
  unfold bind. destruct (m w) as [a w1 | |]; intros H; try discriminate.
  exists a, w1. split; [reflexivity | exact H].
Qed.

Lemma wait_reply_reads fuel : forall w w1,
  wait_reply fuel SerialObj w = Done tt w1 -> (cursor w < cursor w1)%nat.
Proof.
  induction fuel as [|fuel IH]; intros w w1 E; [discriminate E |].
  destruct (Text.has_token (reply_at w 0)) eqn:T.
  - destruct (wait_reply_stop fuel w T) as (w' & E' & _ & _ & Hc & _).
    rewrite E' in E. injection E as <-. lia.
  - destruct (wait_reply_skip fuel w T) as (w' & E' & _ & _ & Hc & _).
    rewrite E' in E. apply IH in E. lia.
Qed.

Lemma send_reads fuel cmd w w1 :
  send fuel SerialObj cmd w = Done tt w1 -> (cursor w < cursor w1)%nat.
Proof.
  rewrite send_serial. intros E. apply wait_reply_reads in E. exact E.
Qed.

Lemma plot_drawing_reads sqrt fuel d w w1 :
  plot_drawing sqrt fuel SerialObj d w = Done tt w1 -> (cursor w < cursor w1)%nat.
Proof.
  unfold plot_drawing. intros E.
  apply bind_inv in E. destruct E as (extremes & wa & Ea & E).
  apply bind_inv in E. destruct E as (u & wb & Eb & Ec).
  apply send_reads in Ec.
  destruct (logs_bounding_box (fun _ => True) (drawing d) None w) as (_ & Ca & _).
  rewrite Ea in Ca. cbn [world_of] in Ca.
  destruct (logs_strokes (fun _ => True) (fun _ => I) (fun _ => I) (fun _ => I)
              sqrt fuel (drawing d) extremes wa) as (_ & Cb & _).
  rewrite Eb in Cb. cbn [world_of] in Cb.
  lia.
Qed.

(** ** Drawings one after the other *)

Lemma starts_app l1 l2 : starts (l1 ++ l2) = starts l1 ++ starts l2.
Proof. apply flat_map_app. Qed.

Lemma starts_none l : Forall no_announcement l -> starts l = [].
Proof.
  induction 1 as [|p l Hp _ IH]; [reflexivity |].
  destruct p; cbn [starts flat_map app] in *; try exact IH. contradiction.
Qed.

Lemma plot_drawing_plottable sqrt fuel d w :
  prompt fuel w -> plottable d ->
  exists out w1,
    plot_drawing sqrt fuel SerialObj d w = Done tt w1 /\
    prompt fuel w1 /\
    written w1 = written w ++ out /\
    drawing_output d out.
Proof.
  intros Hp [Hempty | [Hwf Hspread]].
  - destruct d as [name strokes]. cbn [drawing] in Hempty. subst strokes.
    set (w0 := mkWorld (written w) (log w) (sleeps w) (inbox w) (cursor w)
                       (pending w) (rand w) (S (S (S (rand_pos w))))).
    assert (P0 : prompt fuel w0) by exact Hp.
    destruct (send_prompt fuel (G1_Z PEN_UP 7000) w0 P0) as (w1 & E & W & P1).
    exists [Line (G1_Z PEN_UP 7000)], w1.
    split; [exact E |]. split; [exact P1 |]. split; [exact W |].
    exists (mkScaler 0 0 0 0 0 0), []. split; [reflexivity | constructor].
  - destruct (plot_drawing_prompt sqrt fuel d w Hp Hwf Hspread)
      as (scaler & blocks & w1 & E & W & B & P1).
    exists (List.concat blocks ++ [Line (G1_Z PEN_UP 7000)]), w1.
    split; [exact E |]. split; [exact P1 |]. split; [exact W |].
    exists scaler, blocks. split; [reflexivity | exact B].
Qed.

Lemma plot_in_order_plottable sqrt fuel ds : forall count w,
  prompt fuel w -> Forall plottable ds ->
  exists outs w1,
    plot_in_order sqrt fuel SerialObj ds count w = Done tt w1 /\
    prompt fuel w1 /\
    written w1 = written w ++ List.concat outs /\
    Forall2 drawing_output ds outs /\
    starts (log w1) = starts (log w) ++ numbered count ds /\
    (cursor w <= cursor w1)%nat /\
    (ds <> [] -> (cursor w < cursor w1)%nat).
Proof.
  induction ds as [|d rest IH]; intros count w Hp Hall.
  - exists [], w. cbn [plot_in_order List.concat numbered].
    rewrite !app_nil_r. repeat split; auto. congruence.
  - inversion Hall as [| ? ? Hd Hrest]; subst.
    set (w' := mkWorld (written w) (log w ++ [PrStarting (count + 1) (word d)])
                       (sleeps w) (inbox w) (cursor w) (pending w)
                       (rand w) (rand_pos w)).
    assert (Ep : print (PrStarting (count + 1) (word d)) w = Done tt w')
      by reflexivity.
    assert (P' : prompt fuel w') by exact Hp.
    destruct (plot_drawing_plottable sqrt fuel d w' P' Hd)
      as (out & w2 & E2 & P2 & W2 & O2).
    destruct (IH (count + 1)%Z w2 P2 Hrest)
      as (outs & w3 & E3 & P3 & W3 & O3 & S3 & C3 & _).
    pose proof (plot_drawing_reads sqrt fuel d w' w2 E2) as R2.
    destruct (logs_plot_drawing no_announcement (fun _ => I) (fun _ => I)
                (fun _ => I) sqrt fuel d w') as (_ & _ & (new & Hl & Hnew) & _).
    rewrite E2 in Hl. cbn [world_of] in Hl.
    change (cursor w') with (cursor w) in R2.
    change (log w') with (log w ++ [PrStarting (count + 1) (word d)]) in Hl.
    change (written w') with (written w) in W2.
    clearbody w'.
    exists (out :: outs), w3. split; [| split; [exact P3 | split; [| split; [| split; [| split]]]]].
    + cbn [plot_in_order].
      rewrite (bind_done _ _ _ _ _ Ep), (bind_done _ _ _ _ _ E2). exact E3.
    + rewrite W3, W2. cbn [List.concat]. rewrite app_assoc. reflexivity.
    + constructor; assumption.
    + rewrite S3, Hl, !starts_app, (starts_none new Hnew), app_nil_r.
      cbn [numbered starts flat_map app]. rewrite <- app_assoc. reflexivity.
    + lia.
    + intros _. lia.
Qed.

(** C6.  Take a limit that is not negative, a transport that answers every
    command, and a source whose first [limit] records are drawings that can
    be plotted.  Then [stream_and_plot] returns normally; what it has written
    is the output of those records, one after the other in arrival order,
    and nothing else; their number is the smaller of [limit] and the number
    of records; and the drawings it has announced are those, numbered from
    1.  With limit 1 and three records it plots the first and stops. *)
Theorem driver_processes_first_limit_drawings sqrt fuel lines limit w :
  (0 <= limit)%Z ->
  prompt fuel w ->
  Forall plottable (firstn (Z.to_nat limit) (records lines)) ->
  (exists outs w1,
     stream_and_plot sqrt fuel SerialObj (ResponseOk lines) limit w = Done tt w1 /\
     written w1 = written w ++ List.concat outs /\
     Forall2 drawing_output (firstn (Z.to_nat limit) (records lines)) outs /\
     Z.of_nat (List.length outs) =
       Z.min limit (Z.of_nat (List.length (records lines))) /\
     starts (log w1) =
       starts (log w) ++ numbered 0 (firstn (Z.to_nat limit) (records lines))) /\
  (forall d1 d2 d3,
     plottable d1 ->
     exists out w1,
       stream_and_plot sqrt fuel SerialObj
         (ResponseOk [Some d1; Some d2; Some d3]) 1 w = Done tt w1 /\
       written w1 = written w ++ out /\
       drawing_output d1 out /\
       starts (log w1) = starts (log w) ++ [(1%Z, word d1)]).
Proof.
  intros Hlimit Hp Hall. split.
  - destruct (plot_in_order_plottable sqrt fuel _ 0%Z w Hp Hall)
      as (outs & w1 & E & _ & W & O & S & _).
    exists outs, w1. split; [| split; [exact W | split; [exact O | split; [| exact S]]]].
    + cbn [stream_and_plot]. rewrite plot_lines_any, Z.sub_0_r. exact E.
    + rewrite <- (Forall2_length O), length_firstn. lia.
  - intros d1 d2 d3 Hd1.
    destruct (plot_in_order_plottable sqrt fuel [d1] 0%Z w Hp)
      as (outs & w1 & E & _ & W & O & S & _);
      [constructor; [exact Hd1 | constructor] |].
    inversion O as [| ? out ? outs' Ho Hos]; subst.
    inversion Hos; subst.
    exists out, w1. split; [| split; [| split; [exact Ho | exact S]]].
    + cbn [stream_and_plot]. rewrite plot_lines_any. exact E.
    + rewrite W. cbn [List.concat]. rewrite app_nil_r. reflexivity.
Qed.

Lemma driver_processes_first_limit_drawings_witness :
  let lines := [Some two_points; None; Some (mkDrawing "blank" []);
                Some single_point] in
  exists outs w1,
    stream_and_plot sqrt_approx 1 SerialObj (ResponseOk lines) 2 obedient = Done tt w1 /\
    written w1 = List.concat outs /\
    List.length outs = 2%nat /\
    starts (log w1) = [(1%Z, "line"); (2%Z, "blank")].
Proof.
  intros lines.
  destruct (driver_processes_first_limit_drawings sqrt_approx 1 lines 2 obedient)
    as [(outs & w1 & E & W & O & L & S) _].
  - lia.
  - intros n _. exists 0%nat. split; [lia | reflexivity].
  - apply Forall_cons; [| apply Forall_cons; [left; reflexivity | apply Forall_nil]].
    right. split; [repeat constructor |].
    left. exists 0%Q, 10%Q. cbn. repeat split; auto.
  - exists outs, w1. split; [exact E |]. split; [exact W |]. split; [| exact S].
    apply Nat2Z.inj. rewrite L. reflexivity.
Defined.


